(** * peptide_prices: ingestion (prepare_data.py) and comparison (app/app.py)

    A shallow embedding of the price pipeline and of the comparison
    layer, with the properties stated about them.

    Modelling conventions.
    - A Python [str] is a [string]; the embedding is exact on ASCII text
      (code points below 128), which is what the vendor lists contain.
      Characters from 128 up are treated as caseless symbols that are
      neither digits, word characters nor white space.
    - A Python [float] is a [pyfloat]: an exact rational, an infinity or
      NaN.  Rounding, overflow and underflow of IEEE doubles are not
      modelled; signed zeros are identified.
    - In a pandas float column a missing cell is NaN, so the comparison
      layer uses [pyfloat] cells with [FNaN] for "missing"; the ingestion
      code uses Python's [None], modelled by [option].
    - An exception is an explicit error value ([pyresult]).

    Left out: [parse_jeep_csv] and the upload of further vendor files
    (both rest on the type inference of [read_csv]), the writing of the
    master file, and the display strings of the two tables (their
    [:.2f] rounding is that of doubles). *)

From Stdlib Require Import String Ascii List ZArith QArith Qcanon Bool Lia Sorted.
From stdpp Require Import base decidable list gmap strings sorting.

Local Open Scope string_scope.
Local Open Scope Z_scope.

(** ** Python primitives *)

Module Py.

(** Exceptions raised by the modelled code. *)
Inductive pyerror := ValueError | ZeroDivisionError | KeyError.

Inductive pyresult (A : Type) :=
| Ok (a : A)
| Raise (e : pyerror).
Arguments Ok {A} a.
Arguments Raise {A} e.

Global Instance pyresult_ret : MRet pyresult := λ A a, Ok a.

Global Instance pyresult_bind : MBind pyresult := λ A B k m,
  match m with
  | Ok a => k a
  | Raise e => Raise e
  end.

(** [try: ... except ValueError: handler] *)
Definition except_ValueError {A} (m : pyresult A) (handler : A) : pyresult A :=
  match m with
  | Raise ValueError => Ok handler
  | _ => m
  end.

(** *** Characters *)

Definition code (c : ascii) : nat := nat_of_ascii c.

Definition in_range (lo hi : nat) (c : ascii) : bool :=
  (lo <=? code c)%nat && (code c <=? hi)%nat.

Definition is_digit (c : ascii) : bool := in_range 48 57 c.
Definition is_upper (c : ascii) : bool := in_range 65 90 c.
Definition is_lower (c : ascii) : bool := in_range 97 122 c.
Definition is_alpha (c : ascii) : bool := is_upper c || is_lower c.

(** [\w] of [re] on ASCII text: letters, digits and the underscore. *)
Definition is_word (c : ascii) : bool :=
  is_alpha c || is_digit c || Ascii.eqb c "_"%char.

(** [str.isspace] (also [\s] of [re]): TAB..CR, FS..US and the space. *)
Definition is_space (c : ascii) : bool :=
  in_range 9 13 c || in_range 28 32 c.

(** C's [Py_ISSPACE], used by [float()]: TAB..CR and the space. *)
Definition is_c_space (c : ascii) : bool :=
  in_range 9 13 c || Ascii.eqb c " "%char.

Definition lower_char (c : ascii) : ascii :=
  if is_upper c then ascii_of_nat (code c + 32) else c.

Definition upper_char (c : ascii) : ascii :=
  if is_lower c then ascii_of_nat (code c - 32) else c.

Definition digit_val (c : ascii) : Z := Z.of_nat (code c) - 48.

(** *** Strings *)

Fixpoint smap (f : ascii → ascii) (s : string) : string :=
  match s with
  | EmptyString => EmptyString
  | String c r => String (f c) (smap f r)
  end.

Definition lower (s : string) : string := smap lower_char s.
Definition upper (s : string) : string := smap upper_char s.

(** [s.replace(c, "")] for a one-character [c]. *)
Fixpoint remove_char (c : ascii) (s : string) : string :=
  match s with
  | EmptyString => EmptyString
  | String d r => if Ascii.eqb d c then remove_char c r else String d (remove_char c r)
  end.

Fixpoint drop_while (p : ascii → bool) (s : string) : string :=
  match s with
  | EmptyString => EmptyString
  | String c r => if p c then drop_while p r else s
  end.

Fixpoint srev_app (s acc : string) : string :=
  match s with
  | EmptyString => acc
  | String c r => srev_app r (String c acc)
  end.

Definition srev (s : string) : string := srev_app s EmptyString.

Definition strip_with (p : ascii → bool) (s : string) : string :=
  srev (drop_while p (srev (drop_while p s))).

(** [s.strip()] *)
Definition strip (s : string) : string := strip_with is_space s.

(** The longest prefix of characters satisfying [p], and the rest. *)
Fixpoint span (p : ascii → bool) (s : string) : string * string :=
  match s with
  | EmptyString => (EmptyString, EmptyString)
  | String c r =>
      if p c then let '(a, b) := span p r in (String c a, b)
      else (EmptyString, s)
  end.

(** [s.startswith(p)]; on success also the remainder. *)
Fixpoint strip_prefix (p s : string) : option string :=
  match p, s with
  | EmptyString, _ => Some s
  | String a p', String b s' => if Ascii.eqb a b then strip_prefix p' s' else None
  | String _ _, EmptyString => None
  end.

Definition startswith (p s : string) : bool :=
  match strip_prefix p s with Some _ => true | None => false end.

(** [p in s] *)
Fixpoint contains (p s : string) : bool :=
  startswith p s ||
  match s with
  | EmptyString => false
  | String _ r => contains p r
  end.

(** [bool(s)] for a string. *)
Definition nonempty (s : string) : bool :=
  match s with EmptyString => false | _ => true end.

(** [str(x)] for a cell that is a string or [None]. *)
Definition str_of (x : option string) : string :=
  match x with
  | Some s => s
  | None => "None"
  end.

(** [bool(x)] for a cell that is a string or [None]. *)
Definition truthy_cell (x : option string) : bool :=
  match x with
  | Some s => nonempty s
  | None => false
  end.

(** The decimal value of a digit string, most significant digit first. *)
Fixpoint digits_val_acc (acc : Z) (s : string) : Z :=
  match s with
  | EmptyString => acc
  | String c r => digits_val_acc (10 * acc + digit_val c) r
  end.

Definition digits_val (s : string) : Z := digits_val_acc 0 s.

(** *** Floats *)

Inductive pyfloat :=
| FFin (q : Qc)
| FInf (neg : bool)
| FNaN.

Definition of_Z (n : Z) : pyfloat := FFin (Qc_of_Z n).

Definition pow10 (e : Z) : Qc :=
  if 0 <=? e then Qc_of_Z (10 ^ e)
  else Q2Qc (1 # Z.to_pos (10 ^ (- e))).

(** The float written [m]e[e]. *)
Definition of_decimal (m e : Z) : pyfloat := FFin (Qc_of_Z m * pow10 e)%Qc.

Definition is_zero (q : Qc) : bool := bool_decide (q = Q2Qc 0).
Definition is_neg (q : Qc) : bool := bool_decide (q < Q2Qc 0)%Qc.

(** [bool(x)]: false exactly for zero. *)
Definition truthy (x : pyfloat) : bool :=
  match x with
  | FFin q => negb (is_zero q)
  | _ => true
  end.

Definition isnan (x : pyfloat) : bool :=
  match x with FNaN => true | _ => false end.

Definition notna (x : pyfloat) : bool := negb (isnan x).

Definition fneg (x : pyfloat) : pyfloat :=
  match x with
  | FFin q => FFin (- q)%Qc
  | FInf s => FInf (negb s)
  | FNaN => FNaN
  end.

Definition fmul (x y : pyfloat) : pyfloat :=
  match x, y with
  | FNaN, _ | _, FNaN => FNaN
  | FFin a, FFin b => FFin (a * b)%Qc
  | FInf s, FInf t => FInf (xorb s t)
  | FInf s, FFin q | FFin q, FInf s =>
      if is_zero q then FNaN else FInf (xorb s (is_neg q))
  end.

Definition fadd (x y : pyfloat) : pyfloat :=
  match x, y with
  | FNaN, _ | _, FNaN => FNaN
  | FFin a, FFin b => FFin (a + b)%Qc
  | FInf s, FInf t => if Bool.eqb s t then FInf s else FNaN
  | FInf s, FFin _ | FFin _, FInf s => FInf s
  end.

(** [x / y] on Python floats: a zero divisor raises. *)
Definition fdiv (x y : pyfloat) : pyresult pyfloat :=
  match y with
  | FFin b =>
      if is_zero b then Raise ZeroDivisionError
      else match x with
           | FFin a => Ok (FFin (a / b)%Qc)
           | FInf s => Ok (FInf (xorb s (is_neg b)))
           | FNaN => Ok FNaN
           end
  | FInf _ =>
      match x with
      | FFin _ => Ok (FFin (Q2Qc 0))
      | _ => Ok FNaN
      end
  | FNaN => Ok FNaN
  end.

(** [x < y]; false as soon as one side is NaN. *)
Definition flt (x y : pyfloat) : bool :=
  match x, y with
  | FNaN, _ | _, FNaN => false
  | FFin a, FFin b => bool_decide (a < b)%Qc
  | FInf s, FInf t => s && negb t
  | FInf s, FFin _ => s
  | FFin _, FInf t => negb t
  end.

(** [x == y]; false as soon as one side is NaN. *)
Definition feq (x y : pyfloat) : bool :=
  match x, y with
  | FNaN, _ | _, FNaN => false
  | FFin a, FFin b => bool_decide (a = b)
  | FInf s, FInf t => Bool.eqb s t
  | _, _ => false
  end.

Definition fle (x y : pyfloat) : bool := flt x y || feq x y.


Global Instance pyfloat_eq_dec : EqDecision pyfloat.
Proof. solve_decision. Defined.

(** A readable view of a float: numerator and denominator in lowest terms. *)
Inductive fview := VFin (n : Z) (d : positive) | VInf (neg : bool) | VNaN.

Definition view (x : pyfloat) : fview :=
  match x with
  | FFin q => VFin (Qnum (this q)) (Qden (this q))
  | FInf s => VInf s
  | FNaN => VNaN
  end.

(** *** [float(s)] on a string

    CPython accepts, between optional white space, an optional sign
    followed by a decimal literal (digits with an optional point, or a
    point followed by digits, then an optional exponent) or by one of
    [inf], [infinity], [nan] in any case.  Underscores may separate
    digits.  Anything else raises [ValueError]. *)

(** The underscore pass of [_Py_string_to_number_with_underscores]: an
    underscore must follow a digit and be followed by a digit. *)
Fixpoint strip_underscores (prev : ascii) (s : string) : option string :=
  match s with
  | EmptyString => if Ascii.eqb prev "_"%char then None else Some EmptyString
  | String c r =>
      if Ascii.eqb c "_"%char then
        if is_digit prev then strip_underscores c r else None
      else if Ascii.eqb prev "_"%char && negb (is_digit c) then None
      else option_map (String c) (strip_underscores c r)
  end.

Definition parse_sign (s : string) : bool * string :=
  match s with
  | String "-"%char r => (true, r)
  | String "+"%char r => (false, r)
  | _ => (false, s)
  end.

(** The exponent part: empty, or [e]/[E], an optional sign and digits. *)
Definition parse_exponent (s : string) : option Z :=
  match s with
  | EmptyString => Some 0
  | String c r =>
      if Ascii.eqb c "e"%char || Ascii.eqb c "E"%char then
        let '(neg, r1) := parse_sign r in
        let '(ds, r2) := span is_digit r1 in
        if nonempty ds && negb (nonempty r2)
        then Some (if neg then - digits_val ds else digits_val ds)
        else None
      else None
  end.

(** An unsigned decimal literal, as mantissa and exponent. *)
Definition parse_decimal (s : string) : option (Z * Z) :=
  let '(ip, r1) := span is_digit s in
  let '(fp, r2) :=
    match r1 with
    | String "."%char r => span is_digit r
    | _ => (EmptyString, r1)
    end in
  if nonempty ip || nonempty fp then
    match parse_exponent r2 with
    | Some e => Some (digits_val (ip ++ fp), e - Z.of_nat (String.length fp))
    | None => None
    end
  else None.

Definition parse_inf_nan (s : string) : option pyfloat :=
  let l := lower s in
  if String.eqb l "inf" || String.eqb l "infinity" then Some (FInf false)
  else if String.eqb l "nan" then Some FNaN
  else None.

Definition float_inner (s : string) : pyresult pyfloat :=
  let t := strip_with is_c_space s in
  let '(neg, body) := parse_sign t in
  let signed x := if neg then fneg x else x in
  match parse_decimal body with
  | Some (m, e) => Ok (signed (of_decimal m e))
  | None =>
      match parse_inf_nan body with
      | Some x => Ok (signed x)
      | None => Raise ValueError
      end
  end.

Definition float_of_str (s : string) : pyresult pyfloat :=
  if contains "_" s then
    match strip_underscores "000"%char s with
    | Some t => float_inner t
    | None => Raise ValueError
    end
  else float_inner s.

End Py.

Import Py.

(** ** Ingestion: prepare_data.py *)

Module PrepareData.

(** [to_float_price(x)]: [x] is a cell, a string or [None]. *)
Definition to_float_price (x : option string) : pyresult (option pyfloat) :=
  match x with
  | None => Ok None
  | Some x =>
      let s := strip x in
      let s := remove_char ","%char (remove_char "$"%char s) in
      if negb (nonempty s) then Ok None
      else except_ValueError (v ← float_of_str s; Ok (Some v)) None
  end.

(** One attempt of [(\d+(?:\.\d+)?)(mg)] at the head of [s], giving
    group 1.  Both digit runs are maximal: a shorter run would leave a
    digit where the pattern wants [.] or [m], and when a point follows the
    integer part the pattern cannot continue with [mg] without the
    fraction. *)
Definition mg_match_here (s : string) : option string :=
  let '(ip, r1) := span is_digit s in
  if nonempty ip then
    match r1 with
    | String "."%char r =>
        let '(fp, r2) := span is_digit r in
        if nonempty fp && startswith "mg" r2 then Some (ip ++ "." ++ fp) else None
    | _ => if startswith "mg" r1 then Some ip else None
    end
  else None.

(** [re.search]: the leftmost position where the attempt succeeds. *)
Fixpoint search (here : string → option string) (s : string) : option string :=
  match here s with
  | Some g => Some g
  | None =>
      match s with
      | EmptyString => None
      | String _ r => search here r
      end
  end.

Definition extract_mg (text : string) : pyresult (option pyfloat) :=
  if negb (nonempty text) then Ok None
  else
    let s := remove_char " "%char (lower text) in
    match search mg_match_here s with
    | None => Ok None
    | Some g => v ← float_of_str g; Ok (Some v)
    end.

(** One attempt of [(\d+)vials] at the head of [s], giving group 1. *)
Definition vials_match_here (s : string) : option string :=
  let '(ds, r) := span is_digit s in
  if nonempty ds && startswith "vials" r then Some ds else None.

(** One attempt of [x(\d+)vials] at the head of [s], giving group 1. *)
Definition xvials_match_here (s : string) : option string :=
  match s with
  | String "x"%char r => vials_match_here r
  | _ => None
  end.

(** [int(g)] on a string of digits. *)
Definition int_of_digits (g : string) : Z := digits_val g.

Definition extract_vials (text : string) : option Z :=
  if negb (nonempty text) then None
  else
    let s := remove_char " "%char (lower text) in
    match search vials_match_here s with
    | Some g => Some (int_of_digits g)
    | None =>
        match search xvials_match_here s with
        | Some g => Some (int_of_digits g)
        | None => None
        end
    end.

Record record := {
  vendor : string;
  product_name : string;
  spec_raw : string;
  price_usd : option pyfloat;
  dose_mg_per_vial : option pyfloat;
  vials_per_kit : Z;
  total_mg_per_kit : option pyfloat;
  price_per_mg : option pyfloat;
  source_file : string
}.

(** [bool(x)] for a float or [None]. *)
Definition truthy_opt (x : option pyfloat) : bool :=
  match x with
  | Some v => truthy v
  | None => false
  end.

Definition standardize_row
    (vendor product_name spec price_str source_file : string) : pyresult record :=
  price ← to_float_price (Some price_str);
  d1 ← extract_mg spec;
  dose_mg_per_vial ← (if truthy_opt d1 then Ok d1 else extract_mg product_name);
  let vials_per_kit :=
    match extract_vials spec with
    | Some n => if n =? 0 then 10 else n
    | None => 10
    end in
  let total_mg :=
    match dose_mg_per_vial with
    | Some d => if truthy d then Some (fmul d (of_Z vials_per_kit)) else None
    | None => None
    end in
  ppm ←
    match price, total_mg with
    | Some p, Some t => if truthy t then q ← fdiv p t; Ok (Some q) else Ok None
    | _, _ => Ok None
    end;
  Ok {| vendor := vendor;
        product_name := if nonempty product_name then strip product_name else "";
        spec_raw := if nonempty spec then strip spec else "";
        price_usd := price;
        dose_mg_per_vial := dose_mg_per_vial;
        vials_per_kit := vials_per_kit;
        total_mg_per_kit := total_mg;
        price_per_mg := ppm;
        source_file := source_file |}.

(** *** Vendor adapters

    The table extractor is external: an adapter is modelled on what it
    returns, the tables of all pages in order, each table a list of rows
    and each row a list of cells (a string or [None]). *)

Definition cell := option string.
Definition row := list cell.
Definition table := list row.

(** The arguments of one [standardize_row] call, before [str()]. *)
Record raw_tuple := {
  raw_vendor : string;
  raw_name : cell;
  raw_spec : cell;
  raw_price : cell;
  raw_source : string
}.

Definition standardize (t : raw_tuple) : pyresult record :=
  standardize_row (raw_vendor t) (str_of (raw_name t)) (str_of (raw_spec t))
                  (str_of (raw_price t)) (raw_source t).

(** [r[i] if len(r) > i else default] *)
Definition cell_at (r : row) (i : nat) (default : cell) : cell :=
  match r !! i with
  | Some c => c
  | None => default
  end.

(** [not r or not r[0]] *)
Definition skip_row (r : row) : bool :=
  match r with
  | [] => true
  | c :: _ => negb (truthy_cell c)
  end.

(** [row and p(str(row[0]))] *)
Definition first_cell_is (p : string → bool) (r : row) : bool :=
  match r with
  | [] => false
  | c :: _ => p (str_of c)
  end.

(** The index of the first row satisfying [p]. *)
Fixpoint find_index (p : row → bool) (t : table) : option nat :=
  match t with
  | [] => None
  | r :: t' => if p r then Some 0%nat else S <$> find_index p t'
  end.

Definition hyb_file : string := "HYB-Price List - Overview.pdf".

Definition parse_hyb_row (r : row) : list raw_tuple :=
  if skip_row r then []
  else
    let name := cell_at r 1 (Some "") in
    let spec := cell_at r 2 (Some "") in
    let price_1kit := cell_at r 3 None in
    [ {| raw_vendor := "HYB"; raw_name := name; raw_spec := spec;
         raw_price := price_1kit; raw_source := hyb_file |} ].

Definition parse_hyb_table (t : table) : list raw_tuple :=
  match find_index (first_cell_is (λ s, String.eqb (strip s) "Code")) t with
  | None => []
  | Some header_idx => concat (parse_hyb_row <$> drop (S header_idx) t)
  end.

Definition parse_hyb_raw (tables : list table) : list raw_tuple :=
  concat (parse_hyb_table <$> tables).

Definition parse_hyb (tables : list table) : pyresult (list record) :=
  mapM standardize (parse_hyb_raw tables).

(** The loop body shared by the adapters that carry the product name
    forward: the state is [current_name]. *)
Definition carry_row (vendor file : string) (st : cell * list raw_tuple) (r : row)
    : cell * list raw_tuple :=
  let '(current_name, rows) := st in
  if skip_row r then st
  else
    let current_name :=
      match r !! 1%nat with
      | Some c => if truthy_cell c then c else current_name
      | None => current_name
      end in
    let name := current_name in
    let spec := cell_at r 2 (Some "") in
    let price := cell_at r 3 None in
    if negb (truthy_cell name) || negb (truthy_cell price) then (current_name, rows)
    else (current_name,
          (rows ++ [ {| raw_vendor := vendor; raw_name := name; raw_spec := spec;
                        raw_price := price; raw_source := file |} ])%list).

Definition carry_rows (vendor file : string) (rs : list row) : list raw_tuple :=
  snd (foldl (carry_row vendor file) (None, []) rs).

(** [first and "Cat. No." in str(first[0])], then [table[start_idx:]] *)
Definition after_cat_header (t : table) : list row :=
  match t with
  | [] => []
  | first :: _ =>
      if first_cell_is (contains "Cat. No.") first then drop 1 t else t
  end.

Definition cn_file : string := "HXTNT-Lucy-price list.pdf".

Definition parse_cn_full_raw (tables : list table) : list raw_tuple :=
  concat ((λ t, carry_rows "HXTNT" cn_file (after_cat_header t)) <$> tables).


Definition violet_file : string := "violet-list.pdf".

Definition parse_violet_single_raw (tables : list table) : list raw_tuple :=
  concat ((λ t, carry_rows "Violet" violet_file (after_cat_header t)) <$> tables).


Definition zj_file : string := "ZJlist123.pdf".

Definition parse_zj_table (t : table) : list raw_tuple :=
  let start_idx :=
    match find_index (first_cell_is (contains "SKU")) t with
    | Some header_idx => S header_idx
    | None => 0%nat
    end in
  carry_rows "ZJ" zj_file (drop start_idx t).

Definition parse_zj_raw (tables : list table) : list raw_tuple :=
  concat (parse_zj_table <$> tables).


(** *** The text adapter: [parse_mix] *)











(** *** [parse_uther] *)







End PrepareData.

(** ** Comparison layer: app/app.py *)

Module App.

(** *** Canonical peptide name *)

(** [\b] just before a word character: the previous character, if any,
    is not a word character. *)
Definition boundary_before (prev : option ascii) : bool :=
  match prev with
  | Some c => negb (is_word c)
  | None => true
  end.

(** [\b] just after a word character. *)
Definition boundary_after (s : string) : bool :=
  match s with
  | String c _ => negb (is_word c)
  | EmptyString => true
  end.

(** [(MG|MCG|UG|IU)\b] at the head of [s]: what is left after it. *)
Definition unit_here (s : string) : option string :=
  let alt u :=
    match strip_prefix u s with
    | Some r => if boundary_after r then Some r else None
    | None => None
    end in
  match alt "MG" with
  | Some r => Some r
  | None =>
      match alt "MCG" with
      | Some r => Some r
      | None =>
          match alt "UG" with
          | Some r => Some r
          | None => alt "IU"
          end
      end
  end.

(** [\d+(\.\d+)?\s*(MG|MCG|UG|IU)\b] at the head of [s]: what is left
    after the match.  The digit and space runs are maximal (a shorter run
    leaves a digit or a space where the pattern wants something else);
    the fraction is tried first and then given up, as the matcher does. *)
Definition dose_token_here (s : string) : option string :=
  let '(ip, r1) := span is_digit s in
  if nonempty ip then
    let tail r := unit_here (drop_while is_space r) in
    let with_fraction :=
      match r1 with
      | String "."%char r =>
          let '(fp, r2) := span is_digit r in
          if nonempty fp then tail r2 else None
      | _ => None
      end in
    match with_fraction with
    | Some r => Some r
    | None => tail r1
    end
  else None.

(** [re.sub(r"\b\d+(\.\d+)?\s*(MG|MCG|UG|IU)\b", "", s)]: [skip] counts
    the characters of the current match still to be dropped, [prev] is
    the character before the head of [s]. *)
Fixpoint remove_dose_tokens (skip : nat) (prev : option ascii) (s : string) : string :=
  match s with
  | EmptyString => EmptyString
  | String c r =>
      match skip with
      | S k => remove_dose_tokens k (Some c) r
      | O =>
          match (if boundary_before prev then dose_token_here s else None) with
          | Some rest =>
              remove_dose_tokens (String.length r - String.length rest) (Some c) r
          | None => String c (remove_dose_tokens 0 (Some c) r)
          end
      end
  end.

(** [re.sub(r"[-_]", " ", s)] *)
Definition dashes_to_spaces (s : string) : string :=
  smap (λ c, if Ascii.eqb c "-"%char || Ascii.eqb c "_"%char then " "%char else c) s.

(** [re.sub(p+, " ", s)] for a character class [p]: every maximal run
    becomes one space; [in_run] tells that the run has begun. *)
Fixpoint collapse_runs (p : ascii → bool) (in_run : bool) (s : string) : string :=
  match s with
  | EmptyString => EmptyString
  | String c r =>
      if p c then
        if in_run then collapse_runs p true r
        else String " "%char (collapse_runs p true r)
      else String c (collapse_runs p false r)
  end.

(** The chain of [.str] calls that builds [canonical_peptide]. *)
Definition tokencleanup (product_name : string) : string :=
  let s := upper product_name in
  let s := remove_dose_tokens 0 None s in
  let s := dashes_to_spaces s in
  let s := collapse_runs (λ c, negb (is_word c)) false s in
  let s := collapse_runs is_space false s in
  strip s.

(** [cp.str.match(r"^lit$")]: [$] also matches before a final newline. *)
Definition match_whole (lit cp : string) : bool :=
  String.eqb cp lit || String.eqb cp (lit ++ String (ascii_of_nat 10) EmptyString).

(** One alias rule: a mask over [cp] and the literal written on a hit. *)
Definition rule := ((string → bool) * string)%type.

(** [df.loc[mask, "canonical_peptide"] = literal], rule after rule: the
    masks are all computed on the same [cp]; a later hit overwrites. *)
Definition apply_rules (rules : list rule) (cp : string) (current : string) : string :=
  foldl (λ acc (r : rule), if r.1 cp then r.2 else acc) current rules.

Definition base_rules : list rule :=
  [ (startswith "RETA", "RETATRUTIDE");
    (startswith "TIRZE", "TIRZEPATIDE");
    (startswith "SEMA", "SEMAGLUTIDE") ].

Definition alias_rules : list rule :=
  [ (match_whole "SS 31", "SS-31");
    (startswith "ARA 290", "ARA-290");
    (startswith "SNAP 8", "SNAP-8");
    (startswith "BPC 157", "BPC 157");
    (contains "BAC WATER", "BACTERIOSTATIC WATER");
    (contains "BACTERIOSTATIC", "BACTERIOSTATIC WATER");
    (startswith "BPC TB", "BPC TB BLEND");
    (λ cp, contains "TB" cp && contains "BPC" cp, "BPC TB BLEND");
    (startswith "CAGR", "CAGRILINTIDE");
    (contains "EPITHALON", "EPITHALON");
    (contains "EPITALON", "EPITHALON");
    (startswith "GLUTATHIONE", "GLUTATHIONE");
    (contains "MAZDU", "MAZDUTIDE");
    (λ cp, String.eqb (remove_char " "%char cp) "MOTSC", "MOTS C");
    (λ cp, contains "CJC" cp && contains "NO DAC" cp, "CJC NO DAC");
    (λ cp, contains "CJC" cp && contains "WITHOUT DAC" cp, "CJC NO DAC");
    (λ cp, contains "CJC" cp && contains "WHITOUT DAC" cp, "CJC NO DAC");
    (λ cp, contains "CJC" cp && contains "IPA" cp, "CJC NO DAC IPA");
    (contains "MELANOTAN 1", "MELANOTAN I");
    (contains "MELANOTAN I", "MELANOTAN I");
    (match_whole "MELANOTAN", "MELANOTAN I");
    (match_whole "MT 1", "MELANOTAN I");
    (startswith "KLOW", "KLOW");
    (contains "KLOW TB BP KP GHK", "KLOW");
    (contains "BPC GHK CU TB KPV", "KLOW");
    (startswith "GLOW", "GLOW");
    (contains "GLOW TB BP GHK", "GLOW");
    (contains "GLOW TBMG", "GLOW");
    (λ cp, contains "BPC GHK CU TB" cp && negb (contains "KPV" cp), "GLOW");
    (λ cp, String.eqb cp "HCG", "HUMAN CHORIONIC GONADOTROPIN");
    (contains "CHORIONIC", "HUMAN CHORIONIC GONADOTROPIN");
    (λ cp, contains "PEGMGF" (remove_char " "%char cp), "PEG MGF");
    (startswith "AOD", "AOD-9604");
    (startswith "FOXO4", "FOXO4-DRI");
    (contains "IGF", "IGF-1 LR3");
    (startswith "KISSPEPTIN", "KISSPEPTIN-10");
    (startswith "L CARNITINE", "L-CARNITINE");
    (λ cp, match_whole "LL37" cp || match_whole "LL 37" cp, "LL-37");
    (λ cp, match_whole "PT141" cp || match_whole "PT 141" cp, "PT-141") ].

(** The value of [canonical_peptide] for one [product_name]. *)
Definition canonical_peptide (product_name : string) : string :=
  let cleaned := tokencleanup product_name in
  let based := apply_rules base_rules cleaned cleaned in
  apply_rules alias_rules (upper based) based.

(** *** The table and the kit-size rule *)

(** One row of [df].  Numeric cells are floats with NaN for a missing
    value; text cells are a string or missing. *)
Record df_row := {
  vendor : string;
  product_name : option string;
  spec_raw : option string;
  price_usd : pyfloat;
  dose_mg_per_vial : pyfloat;
  vials_per_kit : pyfloat;
  total_mg_per_kit : pyfloat;
  price_per_mg : pyfloat;
  source_file : option string
}.

(** A float or [None] as it reads back from the master CSV. *)
Definition csv_float (x : option pyfloat) : pyfloat :=
  match x with
  | Some v => v
  | None => FNaN
  end.

(** A text field as it reads back from the master CSV: an empty field is
    missing.  (The other spellings that [read_csv] takes for missing are
    not modelled.) *)
Definition csv_text (s : string) : option string :=
  if nonempty s then Some s else None.

(** [load_data] on one record written by [prepare_data.main]. *)
Definition load_row (r : PrepareData.record) : df_row :=
  {| vendor := PrepareData.vendor r;
     product_name := csv_text (PrepareData.product_name r);
     spec_raw := csv_text (PrepareData.spec_raw r);
     price_usd := csv_float (PrepareData.price_usd r);
     dose_mg_per_vial := csv_float (PrepareData.dose_mg_per_vial r);
     vials_per_kit := of_Z (PrepareData.vials_per_kit r);
     total_mg_per_kit := csv_float (PrepareData.total_mg_per_kit r);
     price_per_mg := csv_float (PrepareData.price_per_mg r);
     source_file := csv_text (PrepareData.source_file r) |}.

Definition load_data (rs : list PrepareData.record) : list df_row := load_row <$> rs.

(** [mask = df["dose_mg_per_vial"].notna()]
    [df.loc[mask, "total_mg_per_kit"] = df.loc[mask, "dose_mg_per_vial"] * 10] *)
Definition normalize_total_row (r : df_row) : df_row :=
  if notna (dose_mg_per_vial r) then
    {| vendor := vendor r;
       product_name := product_name r;
       spec_raw := spec_raw r;
       price_usd := price_usd r;
       dose_mg_per_vial := dose_mg_per_vial r;
       vials_per_kit := vials_per_kit r;
       total_mg_per_kit := fmul (dose_mg_per_vial r) (of_Z 10);
       price_per_mg := price_per_mg r;
       source_file := source_file r |}
  else r.

Definition normalize_total (df : list df_row) : list df_row :=
  normalize_total_row <$> df.

(** *** Rank of price per mg within a row *)

(** Insertion sort, used for [sort_index], [sort_values] and by [rank]. *)
Fixpoint insert_sorted {A} (leb : A → A → bool) (x : A) (l : list A) : list A :=
  match l with
  | [] => [x]
  | y :: l' => if leb x y then x :: l else y :: insert_sorted leb x l'
  end.

Fixpoint isort {A} (leb : A → A → bool) (l : list A) : list A :=
  match l with
  | [] => []
  | x :: l' => insert_sorted leb x (isort leb l')
  end.

(** The number of leading elements of [l] that are below [x]. *)
Fixpoint first_pos (x : pyfloat) (l : list pyfloat) : nat :=
  match l with
  | [] => O
  | y :: l' => if flt y x then S (first_pos x l') else O
  end.

(** [row.rank(method="min", ascending=True)] on the cells of one row:
    the present values are sorted; a value gets the 1-based position at
    which its tie group starts; a missing cell gets no rank. *)
Definition rank_min (cells : list pyfloat) : list (option nat) :=
  let sorted := isort fle (filter (λ x, notna x = true) cells) in
  (λ x, if notna x then Some (S (first_pos x sorted)) else None) <$> cells.

(** [ranks.eq(k)] *)
Definition rank_eq (k : nat) (ranks : list (option nat)) : list bool :=
  (λ r, bool_decide (r = Some k)) <$> ranks.

Definition best_mask (cells : list pyfloat) : list bool := rank_eq 1 (rank_min cells).
Definition second_mask (cells : list pyfloat) : list bool := rank_eq 2 (rank_min cells).

(** The marker of one display cell. *)
Inductive marker := Best | SecondBest | NoMarker.

(** The body of the loop that builds a vendor's display cells: a cell
    without a price is blank, and carries no marker. *)
Definition cell_marker (price : pyfloat) (is_best is_second : bool) : option marker :=
  if isnan price then None
  else Some (if is_best then Best else if is_second then SecondBest else NoMarker).

(** *** Persistent selection *)

(** [f"{r['Peptide']}|{r['Dose (mg/vial)']}|{r['Total mg/kit']}"]: the
    peptide is the canonical name (["nan"] when missing), [dose] and
    [total] are the two floats as Python formats them. *)
Definition row_key (canonical : option string) (dose total : string) : string :=
  from_option id "nan" canonical ++ "|" ++ dose ++ "|" ++ total.

(** [edited]: the rows of the editor, as row key and [Include] box. *)
Definition editor := list (string * bool).

Definition visible_keys (edited : editor) : gset string :=
  list_to_set (fst <$> edited).

Definition checked_keys (edited : editor) : gset string :=
  list_to_set (fst <$> filter (λ r, r.2 = true) edited).

(** One refresh: from the stored list of keys to the new stored list. *)
Definition update_selection (selected_row_keys : list string) (edited : editor)
    : list string :=
  let prev_keys_set : gset string := list_to_set selected_row_keys in
  let prev_outside_view := prev_keys_set ∖ visible_keys edited in
  let new_keys_set := prev_outside_view ∪ checked_keys edited in
  elements new_keys_set.

(** [key.split("|")] *)
Fixpoint split_bar (s : string) : list string :=
  match s with
  | EmptyString => [EmptyString]
  | String c r =>
      if Ascii.eqb c "|"%char then EmptyString :: split_bar r
      else match split_bar r with
           | p :: ps => String c p :: ps
           | [] => [String c EmptyString]
           end
  end.

Definition float_or_none (s : string) : pyresult (option pyfloat) :=
  except_ValueError (v ← float_of_str s; Ok (Some v)) None.

(** The body of the decoding loop; unpacking anything but three parts
    raises [ValueError]. *)
Definition decode_key (key : string) : pyresult (string * option pyfloat * option pyfloat) :=
  match split_bar key with
  | [pep; dose_str; total_str] =>
      dose_val ← float_or_none dose_str;
      total_val ← float_or_none total_str;
      Ok (pep, dose_val, total_val)
  | _ => Raise ValueError
  end.

Definition decode_keys (keys : list string)
    : pyresult (list (string * option pyfloat * option pyfloat)) :=
  mapM decode_key keys.

(** *** Price list of the selected rows *)

(** One row of [grouped]: the group key and the two minima. *)
Record grouped_row := {
  grp_peptide : string;
  grp_dose : pyfloat;
  grp_total : pyfloat;
  grp_vendor : string;
  grp_price_usd : pyfloat;
  grp_price_per_mg : pyfloat
}.

Definition fmin (x y : pyfloat) : pyfloat := if flt y x then y else x.

(** [min] over a group, missing when the group is empty. *)
Definition min_of (l : list pyfloat) : pyfloat :=
  match l with
  | [] => FNaN
  | x :: l' => foldl fmin x l'
  end.

(** The ["min"] aggregation: missing cells are skipped. *)
Definition min_skipna (l : list pyfloat) : pyfloat :=
  min_of (filter (λ x, notna x = true) l).

(** [df] with its [canonical_peptide] column (missing where the product
    name is), after the kit-size rule. *)
Definition canonical_rows (df : list df_row) : list (option string * df_row) :=
  (λ r, (canonical_peptide <$> product_name r, normalize_total_row r)) <$> df.

(** The sidebar filters; an empty multiselect filters nothing. *)
Definition apply_filters (selected_peptides selected_vendors : list string)
    (only_with_ppm : bool) (df : list (option string * df_row))
    : list (option string * df_row) :=
  let filt := df in
  let filt :=
    match selected_peptides with
    | [] => filt
    | _ =>
        filter (λ cr : option string * df_row,
                  from_option (λ c, bool_decide (c ∈ selected_peptides)) false cr.1
                  = true) filt
    end in
  let filt :=
    match selected_vendors with
    | [] => filt
    | _ => filter (λ cr, vendor cr.2 ∈ selected_vendors) filt
    end in
  if only_with_ppm then filter (λ cr, notna (price_per_mg cr.2) = true) filt
  else filt.

Definition group_key := (string * pyfloat * pyfloat * string)%type.

(** The group a row falls in; [dropna] and [groupby] leave out a row
    with a missing key cell. *)
Definition group_key_of (cr : option string * df_row) : option group_key :=
  match cr.1 with
  | Some c =>
      if notna (dose_mg_per_vial cr.2) && notna (total_mg_per_kit cr.2)
      then Some (c, dose_mg_per_vial cr.2, total_mg_per_kit cr.2, vendor cr.2)
      else None
  | None => None
  end.

(** The order in which [groupby] lists its keys. *)
Definition group_key_leb (a b : group_key) : bool :=
  if negb (String.eqb a.1.1.1 b.1.1.1) then String.ltb a.1.1.1 b.1.1.1
  else if negb (feq a.1.1.2 b.1.1.2) then flt a.1.1.2 b.1.1.2
  else if negb (feq a.1.2 b.1.2) then flt a.1.2 b.1.2
  else String.leb a.2 b.2.

(** [filt[...].dropna(subset=["dose_mg_per_vial"])
        .groupby(group_cols, as_index=False).agg(agg_cols)] *)
Definition grouped_of (filt : list (option string * df_row)) : list grouped_row :=
  (λ key : group_key,
     let members := snd <$> filter (λ cr, group_key_of cr = Some key) filt in
     {| grp_peptide := key.1.1.1; grp_dose := key.1.1.2;
        grp_total := key.1.2; grp_vendor := key.2;
        grp_price_usd := min_skipna (price_usd <$> members);
        grp_price_per_mg := min_skipna (price_per_mg <$> members) |})
  <$> isort group_key_leb (remove_dups (omap group_key_of filt)).

(** One row of [sel_df]: [None] becomes NaN in a float column. *)
Definition sel_row := (string * pyfloat * pyfloat)%type.

Definition sel_df (selected_keys : list (string * option pyfloat * option pyfloat))
    : list sel_row :=
  (λ k, (k.1.1, csv_float k.1.2, csv_float k.2)) <$> selected_keys.

Definition grp_key (g : grouped_row) : sel_row :=
  (grp_peptide g, grp_dose g, grp_total g).

(** One row of [merged], with the columns the pivot reads. *)
Record merged_row := {
  m_peptide : string;
  m_dose : pyfloat;
  m_vendor : option string;
  m_price_usd : pyfloat
}.

(** [sel_df.merge(grouped, how="left")] on the three key columns: the
    left order is kept, a key without a partner gives one row of missing
    values.  Key cells match when they are the same value (pandas also
    pairs a missing key with a missing key). *)
Definition merge_left (sel : list sel_row) (grouped : list grouped_row) : list merged_row :=
  sel ≫= λ k,
    match filter (λ g, grp_key g = k) grouped with
    | [] => [ {| m_peptide := k.1.1; m_dose := k.1.2;
                 m_vendor := None; m_price_usd := FNaN |} ]
    | gs => (λ g, {| m_peptide := k.1.1; m_dose := k.1.2;
                     m_vendor := Some (grp_vendor g);
                     m_price_usd := grp_price_usd g |}) <$> gs
    end.

Definition pivot_index_key := (string * pyfloat)%type.

(** The rows that reach a cell of the pivot: [groupby] drops a row with a
    missing key, and a group whose minimum is missing is dropped, so only
    rows with a price count. *)
Definition pivot_entry (m : merged_row) : option (pivot_index_key * string) :=
  match m_vendor m with
  | Some v =>
      if notna (m_dose m) && notna (m_price_usd m)
      then Some ((m_peptide m, m_dose m), v)
      else None
  | None => None
  end.

(** The cell of the pivot at row [idx] and column [v]. *)
Definition pivot_cell (merged : list merged_row) (idx : pivot_index_key) (v : string)
    : pyfloat :=
  min_of (m_price_usd <$> filter (λ m, pivot_entry m = Some (idx, v)) merged).

Definition index_leb (a b : pivot_index_key) : bool :=
  if String.eqb a.1 b.1 then fle a.2 b.2 else String.ltb a.1 b.1.

(** The sorted, duplicate-free row and column labels of the pivot. *)
Definition pivot_index (merged : list merged_row) : list pivot_index_key :=
  isort index_leb (remove_dups (fst <$> omap pivot_entry merged)).

Definition pivot_columns (merged : list merged_row) : list string :=
  isort String.leb (remove_dups (snd <$> omap pivot_entry merged)).

(** [merged.pivot_table(index=["Peptide", "Dose (mg/vial)"],
    columns="vendor", values="price_usd", aggfunc="min")], column by
    column. *)
Definition pivot_table (merged : list merged_row) : list (string * list pyfloat) :=
  (λ v, (v, (λ idx, pivot_cell merged idx v) <$> pivot_index merged))
    <$> pivot_columns merged.

(** [price_pivot.loc[:, price_pivot.notna().any(axis=0)]] *)
Definition drop_empty_columns (p : list (string * list pyfloat)) : list (string * list pyfloat) :=
  filter (λ col, existsb notna col.2 = true) p.

(** [column.sum(skipna=True)] *)
Definition sum_skipna (cells : list pyfloat) : pyfloat :=
  foldr fadd (of_Z 0) (filter (λ x, notna x = true) cells).

(** The order of [sort_values()]: ascending, missing values last. *)
Definition total_leb (a b : string * pyfloat) : bool :=
  isnan b.2 || fle a.2 b.2.

(** [price_pivot[ordered_vendors]] *)
Definition select_columns (p : list (string * list pyfloat)) (vs : list string)
    : list (string * list pyfloat) :=
  omap (λ v : string, find (λ col : string * list pyfloat, String.eqb col.1 v) p) vs.

Inductive price_list :=
| SelectRows          (* "Select one or more rows above ..." *)
| NoPrices            (* "No prices available ..." *)
| PriceTable (columns : list (string * list pyfloat)) (total_row : list (string * pyfloat)).

(** Phase 2 of [main]: from the decoded selection and [grouped] to the
    table shown. *)
Definition price_list_of (selected_keys : list (string * option pyfloat * option pyfloat))
    (grouped : list grouped_row) : price_list :=
  match selected_keys with
  | [] => SelectRows
  | _ =>
      let merged := merge_left (sel_df selected_keys) grouped in
      let price_pivot := drop_empty_columns (pivot_table merged) in
      match price_pivot with
      | [] => NoPrices
      | _ =>
          let vendor_totals : list (string * pyfloat) :=
            (λ col : string * list pyfloat, (col.1, sum_skipna col.2)) <$> price_pivot in
          let ordered := isort total_leb vendor_totals in
          let ordered_vendors := fst <$> ordered in
          PriceTable (select_columns price_pivot ordered_vendors) ordered
      end
  end.

End App.

(** ** The master table: [main] of prepare_data.py *)

Module Master.

(** The character class [[^A-Z0-9\-]]. *)
Definition outside_key_class (c : ascii) : bool :=
  negb (is_upper c || is_digit c || Ascii.eqb c "-"%char).

(** The [peptide_key] column, from [product_name]:
    [.str.upper().str.replace(r"[^A-Z0-9\-]+", " ", regex=True)
     .str.replace(r"\s+", " ", regex=True).str.strip()] *)
Definition peptide_key (product_name : string) : string :=
  let s := upper product_name in
  let s := App.collapse_runs outside_key_class false s in
  let s := App.collapse_runs is_space false s in
  strip s.

End Master.

(** * Vocabulary of the statements *)

Import Py.

Section Vocabulary.

(** Every character of [s] satisfies [p]; [c] occurs in [s]. *)
Fixpoint all_chars (p : ascii → bool) (s : string) : bool :=
  match s with
  | EmptyString => true
  | String c r => p c && all_chars p r
  end.

Fixpoint has_char (c : ascii) (s : string) : bool :=
  match s with
  | EmptyString => false
  | String d r => Ascii.eqb d c || has_char c r
  end.

(** A digit string, possibly followed by a point and a digit string. *)
Definition plain_decimal (ip fp : string) (g : string) : Prop :=
  all_chars is_digit ip = true ∧ nonempty ip = true ∧
  all_chars is_digit fp = true ∧
  (g = ip ∧ fp = "" ∨ nonempty fp = true ∧ g = ip ++ "." ++ fp).

(** The text that [to_float_price] hands to [float()]. *)
Definition price_text (s : string) : string :=
  remove_char ","%char (remove_char "$"%char (strip s)).



(** What the emission rule asks of a tuple. *)
Definition name_and_price_present (t : PrepareData.raw_tuple) : Prop :=
  truthy_cell (PrepareData.raw_name t) = true ∧
  truthy_cell (PrepareData.raw_price t) = true.

(** A HYB table whose second row holds a code and nothing else. *)
Definition hyb_short_row : list PrepareData.table :=
  [ [ [Some "Code"; Some "Name"; Some "Specification"; Some "1kit"];
      [Some "H01"] ] ].

Import App.

(** The literals that the alias rules write. *)
Definition alias_literals : list string := snd <$> (base_rules ++ alias_rules)%list.

(** A row whose vendor reports 3 vials and a total of 15 mg. *)
Definition three_vial_row : df_row :=
  {| vendor := "CN"; product_name := Some "BPC 157"; spec_raw := Some "5mg*3vials";
     price_usd := of_Z 41; dose_mg_per_vial := of_Z 5; vials_per_kit := of_Z 3;
     total_mg_per_kit := of_Z 15; price_per_mg := FNaN; source_file := None |}.

(** What [float_or_none] returns: the float, or missing. *)
Definition float_or_missing (s : string) : option pyfloat :=
  match float_of_str s with
  | Ok v => Some v
  | Raise _ => None
  end.

(** The number of cells strictly below [x], and the size of its tie
    group. *)
Definition count_below (x : pyfloat) (cells : list pyfloat) : nat :=
  length (filter (λ y, flt y x = true) cells).


(** The values of the specification's ranking rows: 0.40 and 0.82. *)
Definition ppm_040 : pyfloat := FFin (Q2Qc (2 # 5)).
Definition ppm_082 : pyfloat := FFin (Q2Qc (41 # 50)).

Definition fsum (l : list pyfloat) : pyfloat := foldr fadd (of_Z 0) l.

(** The two shapes of a row of [merged]. *)
Definition blank_row (k : sel_row) : merged_row :=
  {| m_peptide := k.1.1; m_dose := k.1.2; m_vendor := None; m_price_usd := FNaN |}.

Definition joined_row (k : sel_row) (g : grouped_row) : merged_row :=
  {| m_peptide := k.1.1; m_dose := k.1.2;
     m_vendor := Some (grp_vendor g); m_price_usd := grp_price_usd g |}.

(** The rows of [grouped] that feed the pivot cell of row [idx] and
    vendor [v]. *)
Definition feeds (sel : list sel_row) (idx : pivot_index_key) (v : string)
    (g : grouped_row) : Prop :=
  (grp_peptide g, grp_dose g) = idx ∧ grp_vendor g = v ∧
  notna (grp_dose g) = true ∧ notna (grp_price_usd g) = true ∧
  grp_key g ∈ sel.

(** [grouped] comes from a [groupby] on its four key columns, after rows
    without a dose were dropped and after the kit-size rule made every
    total ten times the dose. *)
Record grouped_wf (grouped : list grouped_row) : Prop := {
  grouped_keys_unique : NoDup ((λ g, (grp_key g, grp_vendor g)) <$> grouped);
  grouped_dose_known : ∀ g, g ∈ grouped → notna (grp_dose g) = true;
  grouped_total_rule :
    ∀ g, g ∈ grouped → grp_total g = fmul (grp_dose g) (of_Z 10)
}.

(** The row of the pivot that a row of [grouped] lands in. *)
Definition index_of (g : grouped_row) : pivot_index_key := (grp_peptide g, grp_dose g).

(** The rows of [grouped] that are selected and carry a price of vendor
    [v], and those prices: the vendor's available prices across the
    selected rows. *)
Definition priced_rows (sel : list sel_row) (grouped : list grouped_row) (v : string)
    : list grouped_row :=
  filter (λ g, grp_vendor g = v ∧ notna (grp_price_usd g) = true ∧ grp_key g ∈ sel)
         grouped.

Definition vendor_prices (sel : list sel_row) (grouped : list grouped_row) (v : string)
    : list pyfloat :=
  grp_price_usd <$> priced_rows sel grouped v.

(** A row after the kit-size rule. *)
Definition total_rule (cr : option string * df_row) : Prop :=
  notna (dose_mg_per_vial cr.2) = true →
  total_mg_per_kit cr.2 = fmul (dose_mg_per_vial cr.2) (of_Z 10).

(** The case of the specification: one vendor pricing two selected rows
    at 41 and 40. *)
Definition two_rows : list df_row :=
  [ {| vendor := "CN"; product_name := Some "BPC 157"; spec_raw := Some "5mg*10vials";
       price_usd := of_Z 41; dose_mg_per_vial := of_Z 5; vials_per_kit := of_Z 10;
       total_mg_per_kit := of_Z 50; price_per_mg := FFin (Q2Qc (41 # 50));
       source_file := None |};
    {| vendor := "CN"; product_name := Some "AOD-9604"; spec_raw := Some "10mg*10vials";
       price_usd := of_Z 40; dose_mg_per_vial := of_Z 10; vials_per_kit := of_Z 10;
       total_mg_per_kit := of_Z 100; price_per_mg := FFin (Q2Qc (2 # 5));
       source_file := None |} ].

Definition two_rows_grouped : list grouped_row :=
  grouped_of (apply_filters [] [] false (canonical_rows two_rows)).

Definition two_rows_selected : list (string * option pyfloat * option pyfloat) :=
  [ ("BPC 157", Some (of_Z 5), Some (of_Z 50));
    ("AOD-9604", Some (of_Z 10), Some (of_Z 100)) ].

(** A character that is not a digit. *)
Definition not_digit (c : ascii) : bool := negb (is_digit c).

(** A character that is not white space. *)
Definition not_space (c : ascii) : bool := negb (is_space c).

(** The tuple that a name-carrying adapter emits for the row [r] under
    the name [name]. *)
Definition carried (vendor file : string) (name : PrepareData.cell) (r : PrepareData.row)
    : PrepareData.raw_tuple :=
  {| PrepareData.raw_vendor := vendor;
     PrepareData.raw_name := name;
     PrepareData.raw_spec := PrepareData.cell_at r 2 (Some "");
     PrepareData.raw_price := PrepareData.cell_at r 3 None;
     PrepareData.raw_source := file |}.

(** A row with a first cell and a price, but no name of its own. *)
Definition unnamed_priced (r : PrepareData.row) : Prop :=
  PrepareData.skip_row r = false ∧
  truthy_cell (PrepareData.cell_at r 1 None) = false ∧
  truthy_cell (PrepareData.cell_at r 3 None) = true.

(** The header rows that [parse_hyb] and [parse_zj] look for. *)
Definition hyb_header (r : PrepareData.row) : bool :=
  PrepareData.first_cell_is (λ s, String.eqb (strip s) "Code") r.

Definition zj_header (r : PrepareData.row) : bool :=
  PrepareData.first_cell_is (contains "SKU") r.

(** The characters of a [peptide_key]: capitals, digits, the hyphen and
    the blank. *)
Definition key_char (c : ascii) : bool :=
  is_upper c || is_digit c || Ascii.eqb c "-"%char || Ascii.eqb c " "%char.

(** No two blanks stand next to each other. *)
Fixpoint single_blanks (s : string) : bool :=
  match s with
  | String a (String b _ as r) =>
      negb (Ascii.eqb a " "%char && Ascii.eqb b " "%char) && single_blanks r
  | _ => true
  end.

(** The first character satisfies [p]. *)
Definition starts_with (p : ascii → bool) (s : string) : bool :=
  match s with
  | String c _ => p c
  | EmptyString => false
  end.

(** A key as the table builds it: the canonical name of a product name
    (or ["nan"]) and two formatted numbers, which hold no bar. *)
Definition table_key (k : string) : Prop :=
  ∃ (name : option string) (dose total : string),
    has_char "|" dose = false ∧ has_char "|" total = false ∧
    k = row_key (canonical_peptide <$> name) dose total.

(** The lists that [selected_row_keys] can hold: the empty list of a
    new session, and what a refresh makes of such a list when the
    editor shows keys built by the table. *)
Inductive stored_keys : list string → Prop :=
| stored_new : stored_keys []
| stored_refresh (ks : list string) (edited : editor) :
    stored_keys ks → Forall (λ r, table_key r.1) edited →
    stored_keys (update_selection ks edited).

(** The group that a row of [grouped] stands for, and the rows of the
    filtered table that fall in a group. *)
Definition group_of (g : grouped_row) : group_key :=
  (grp_peptide g, grp_dose g, grp_total g, grp_vendor g).

Definition group_rows (filt : list (option string * df_row)) (k : group_key)
    : list df_row :=
  snd <$> filter (λ cr, group_key_of cr = Some k) filt.

(** [m] is the least of the present values, and missing only when all
    the values are. *)
Definition least_present (m : pyfloat) (values : list pyfloat) : Prop :=
  (∀ v, v ∈ values → notna v = true → fle m v = true) ∧
  (notna m = true → m ∈ values) ∧
  (notna m = false → ∀ v, v ∈ values → notna v = false).

(** What the three filters ask of a row. *)
Definition passes (selected_peptides selected_vendors : list string)
    (only_with_ppm : bool) (cr : option string * df_row) : Prop :=
  (selected_peptides = [] ∨ ∃ c, cr.1 = Some c ∧ c ∈ selected_peptides) ∧
  (selected_vendors = [] ∨ vendor cr.2 ∈ selected_vendors) ∧
  (only_with_ppm = true → notna (price_per_mg cr.2) = true).

(** A small ZJ table: a header, a named row and two rows that carry
    the name on. *)
Definition zj_sample : PrepareData.table :=
  [ [Some "SKU"; Some "Products Name"; Some "Mg*vials"; Some "1 box"];
    [Some "Z1"; Some "BPC 157"; Some "5mg*10vials"; Some "40"];
    [Some "Z2"; None; Some "10mg*10vials"; Some "70"];
    [Some "Z3"; Some ""; Some "20mg*10vials"; Some "120"] ].

End Vocabulary.

(** * Properties *)

Local Arguments String.append : simpl nomatch.

(** ** Strings *)

Section StringFacts.

Lemma append_empty_r s : s ++ "" = s.
Proof. induction s; simpl; congruence. Qed.

Lemma append_assoc' (a b c : string) : (a ++ b) ++ c = a ++ (b ++ c).
Proof. induction a; simpl; congruence. Qed.

Lemma all_chars_app p a b :
  all_chars p (a ++ b) = all_chars p a && all_chars p b.
Proof. induction a; simpl; [done|]. rewrite IHa. by rewrite andb_assoc. Qed.

Lemma all_chars_impl (p q : ascii → bool) s :
  (∀ c, p c = true → q c = true) → all_chars p s = true → all_chars q s = true.
Proof.
  intros Hpq. induction s as [|c r IH]; simpl; [done|].
  intros [Hc Hr]%andb_true_iff. rewrite (Hpq _ Hc). simpl. auto.
Qed.

Lemma has_char_all_chars p c s :
  all_chars p s = true → p c = false → has_char c s = false.
Proof.
  intros Hall Hc. induction s as [|d r IH]; simpl in *; [done|].
  apply andb_true_iff in Hall as [Hd Hr]. rewrite (IH Hr), orb_false_r.
  destruct (Ascii.eqb_spec d c); [congruence|done].
Qed.


Lemma srev_app_spec s acc : srev_app s acc = srev_app s "" ++ acc.
Proof.
  revert acc. induction s as [|c r IH]; intros acc; simpl; [done|].
  rewrite (IH (String c acc)), (IH (String c "")).
  by rewrite append_assoc'.
Qed.

Lemma srev_cons c s : srev (String c s) = srev s ++ String c "".
Proof. unfold srev. simpl. apply srev_app_spec. Qed.

Lemma srev_append a b : srev (a ++ b) = srev b ++ srev a.
Proof.
  induction a as [|c a IH]; simpl.
  - unfold srev at 2. simpl. by rewrite append_empty_r.
  - rewrite !srev_cons, IH. by rewrite append_assoc'.
Qed.

Lemma srev_involutive s : srev (srev s) = s.
Proof.
  induction s as [|c s IH]; [done|].
  rewrite srev_cons, srev_append, IH. done.
Qed.


Lemma all_chars_srev p s : all_chars p (srev s) = all_chars p s.
Proof.
  induction s as [|d s IH]; [done|].
  rewrite srev_cons, all_chars_app, IH. simpl.
  rewrite andb_true_r. apply andb_comm.
Qed.




Lemma drop_while_all_not p s :
  all_chars (λ c, negb (p c)) s = true → drop_while p s = s.
Proof.
  destruct s as [|c r]; simpl; [done|].
  intros [Hc _]%andb_true_iff. apply negb_true_iff in Hc. by rewrite Hc.
Qed.

Lemma strip_with_all_not p s :
  all_chars (λ c, negb (p c)) s = true → strip_with p s = s.
Proof.
  intros H. unfold strip_with.
  rewrite (drop_while_all_not p s H).
  rewrite (drop_while_all_not p (srev s)) by by rewrite all_chars_srev.
  apply srev_involutive.
Qed.


Lemma span_app_all p a b :
  all_chars p a = true →
  span p (a ++ b) = ((a ++ (span p b).1), (span p b).2).
Proof.
  induction a as [|c a IH]; simpl.
  - intros _. by destruct (span p b).
  - intros [Hc Ha]%andb_true_iff. rewrite Hc, (IH Ha). done.
Qed.

Lemma span_all p a : all_chars p a = true → span p a = (a, "").
Proof.
  intros H. rewrite <-(append_empty_r a) at 1.
  rewrite (span_app_all p a "" H). simpl. by rewrite append_empty_r.
Qed.

Lemma contains_char c s : contains (String c "") s = has_char c s.
Proof.
  induction s as [|d s IH]; simpl; [done|].
  rewrite IH. unfold startswith. simpl.
  rewrite (Ascii.eqb_sym c d). by destruct (Ascii.eqb d c).
Qed.

Lemma nonempty_length s : nonempty s = true ↔ s ≠ "".
Proof. destruct s; simpl; split; congruence. Qed.

End StringFacts.

(** ** Floats *)

Section FloatFacts.











Lemma float_inner_cases s : (∃ v, float_inner s = Ok v) ∨ float_inner s = Raise ValueError.
Proof.
  unfold float_inner. destruct (parse_sign _) as [neg body].
  destruct (parse_decimal body) as [[m e]|]; [left; eauto|].
  destruct (parse_inf_nan body); [left; eauto|by right].
Qed.

Lemma float_of_str_cases s : (∃ v, float_of_str s = Ok v) ∨ float_of_str s = Raise ValueError.
Proof.
  unfold float_of_str. destruct (contains "_" s).
  - destruct (strip_underscores _ s); [apply float_inner_cases|by right].
  - apply float_inner_cases.
Qed.




Lemma digit_not_c_space c : is_digit c = true → negb (is_c_space c) = true.
Proof.
  unfold is_digit, is_c_space, in_range.
  intros [H1 H2]%andb_true_iff. apply Nat.leb_le in H1, H2.
  apply negb_true_iff, orb_false_iff. split.
  - apply andb_false_iff. right. apply Nat.leb_gt. lia.
  - destruct (Ascii.eqb_spec c " "%char) as [->|]; [|done].
    vm_compute in H1. lia.
Qed.

Lemma plain_decimal_chars ip fp g :
  plain_decimal ip fp g →
  all_chars (λ c, is_digit c || Ascii.eqb c "."%char) g = true.
Proof.
  intros (Hip & _ & Hfp & [[-> _]|[_ ->]]).
  - eapply all_chars_impl; [|done]. intros c ->. done.
  - rewrite !all_chars_app. simpl.
    rewrite (all_chars_impl is_digit _ ip), (all_chars_impl is_digit _ fp); try done.
    all: by intros c ->.
Qed.

Lemma float_of_plain_decimal ip fp g :
  plain_decimal ip fp g →
  float_of_str g = Ok (of_decimal (digits_val (ip ++ fp)) (- Z.of_nat (String.length fp))).
Proof.
  intros Hg. pose proof (plain_decimal_chars _ _ _ Hg) as Hchars.
  destruct Hg as (Hip & Hne & Hfp & Hg).
  unfold float_of_str.
  replace (contains "_" g) with false; last first.
  { symmetry. rewrite contains_char. eapply has_char_all_chars; [done|]. done. }
  unfold float_inner.
  rewrite strip_with_all_not; last first.
  { eapply all_chars_impl; [|done]. intros c [Hc|Hc]%orb_true_iff.
    - by apply digit_not_c_space.
    - apply Ascii.eqb_eq in Hc as ->. done. }
  assert (parse_sign g = (false, g)) as ->.
  { destruct ip as [|c ip']; [done|]. simpl in Hip.
    apply andb_true_iff in Hip as [Hc _].
    assert (∃ r, g = String c r) as [r ->].
    { destruct Hg as [[-> _]|[_ ->]]; by eexists. }
    destruct c as [[] [] [] [] [] [] [] []]; try done. }
  assert (parse_decimal g =
          Some (digits_val (ip ++ fp), 0 - Z.of_nat (String.length fp))) as ->.
  { unfold parse_decimal. destruct Hg as [[-> ->]|[Hfne ->]].
    - rewrite (span_all _ _ Hip). simpl. rewrite Hne. simpl. done.
    - rewrite (span_app_all _ _ _ Hip). simpl.
      rewrite append_empty_r. rewrite (span_all _ _ Hfp).
      rewrite Hne. simpl. done. }
  done.
Qed.

End FloatFacts.

(** ** Ingestion *)

Section Ingestion.

Import PrepareData.


Lemma to_float_price_Some s :
  to_float_price (Some s) =
    if nonempty (price_text s)
    then match float_of_str (price_text s) with
         | Ok v => Ok (Some v)
         | Raise _ => Ok None
         end
    else Ok None.
Proof.
  unfold to_float_price. fold (price_text s).
  destruct (nonempty (price_text s)); simpl; [|done].
  destruct (float_of_str_cases (price_text s)) as [[v ->]| ->]; done.
Qed.

















End Ingestion.

(** ** Vendor adapters *)

Section Adapters.

Import PrepareData.

Lemma carry_row_emitted vendor file st r :
  Forall name_and_price_present st.2 →
  Forall name_and_price_present (carry_row vendor file st r).2.
Proof.
  destruct st as [current_name rows]. unfold carry_row. simpl.
  intros Hrows. destruct (skip_row r); [done|].
  set (cur := match r !! 1%nat with
              | Some c => if truthy_cell c then c else current_name
              | None => current_name
              end).
  destruct (truthy_cell cur) eqn:Hn; simpl; [|done].
  destruct (truthy_cell (cell_at r 3 None)) eqn:Hp; simpl; [|done].
  apply Forall_app. split; [done|]. by repeat constructor.
Qed.

Lemma carry_rows_emitted vendor file rs :
  Forall name_and_price_present (carry_rows vendor file rs).
Proof.
  unfold carry_rows.
  assert (∀ st, Forall name_and_price_present st.2 →
                Forall name_and_price_present
                  (foldl (carry_row vendor file) st rs).2) as H.
  { induction rs as [|r rs IH]; intros st Hst; simpl; [done|].
    apply IH. by apply carry_row_emitted. }
  by apply H.
Qed.

(** The adapters that check before appending emit only tuples with a
    name and a price. *)
Lemma checked_adapters_emit_present tables :
  Forall name_and_price_present (parse_cn_full_raw tables) ∧
  Forall name_and_price_present (parse_violet_single_raw tables) ∧
  Forall name_and_price_present (parse_zj_raw tables).
Proof.
  unfold parse_cn_full_raw, parse_violet_single_raw, parse_zj_raw, parse_zj_table.
  repeat split; apply Forall_concat, Forall_fmap, Forall_forall;
    intros t _; apply carry_rows_emitted.
Qed.

(** C7 fails in [parse_hyb]: the loop appends without the check that
    its siblings make, so the row above is emitted with an empty name
    and no price. *)
Theorem parse_hyb_emits_without_name_or_price :
  ∃ t r,
    parse_hyb_raw hyb_short_row = [t] ∧
    raw_name t = Some "" ∧ raw_price t = None ∧
    ¬ name_and_price_present t ∧
    parse_hyb hyb_short_row = Ok [r] ∧
    product_name r = "" ∧ price_usd r = None.
Proof.
  eexists _, _. split; [reflexivity|]. simpl.
  split; [done|]. split; [done|]. split; [by intros [[=] _]|].
  split; [reflexivity|]. done.
Qed.

End Adapters.

(** ** Canonical names *)

Section CanonicalNames.

Import App.

Lemma apply_rules_cases rules cp current :
  apply_rules rules cp current = current ∨
  apply_rules rules cp current ∈ (snd <$> rules).
Proof.
  unfold apply_rules. revert current.
  induction rules as [|[p lit] rules IH]; intros current; simpl; [by left|].
  destruct (IH (if p cp then lit else current)) as [->|Hin].
  - destruct (p cp); [right; left|by left].
  - right. by right.
Qed.

Lemma canonical_peptide_cases s :
  canonical_peptide s = tokencleanup s ∨ canonical_peptide s ∈ alias_literals.
Proof.
  unfold canonical_peptide, alias_literals. rewrite fmap_app.
  set (cleaned := tokencleanup s).
  destruct (apply_rules_cases alias_rules
              (upper (apply_rules base_rules cleaned cleaned))
              (apply_rules base_rules cleaned cleaned)) as [->|Hin].
  - destruct (apply_rules_cases base_rules cleaned cleaned) as [->|Hin]; [by left|].
    right. apply elem_of_app. by left.
  - right. apply elem_of_app. by right.
Qed.





End CanonicalNames.

(** ** The kit-size rule *)

Section KitSize.

Import App.


Lemma times_ten_notna d : notna d = true → notna (fmul d (of_Z 10)) = true.
Proof. destruct d; simpl; done. Qed.

Lemma feq_refl x : notna x = true → feq x x = true.
Proof.
  destruct x as [q|s|]; simpl; try done.
  - intros _. by apply bool_decide_eq_true.
  - intros _. by destruct s.
Qed.

(** C3. After the override every row with a known dose has
    [total_mg_per_kit == dose_mg_per_vial * 10], whatever unit count and
    total it held before; a row with an unknown dose keeps its total. *)
Theorem normalize_total_known_dose (df : list df_row) (i : nat) (r : df_row) :
  df !! i = Some r →
  ∃ r', normalize_total df !! i = Some r' ∧
    dose_mg_per_vial r' = dose_mg_per_vial r ∧
    (notna (dose_mg_per_vial r) = true →
       total_mg_per_kit r' = fmul (dose_mg_per_vial r') (of_Z 10) ∧
       feq (total_mg_per_kit r') (fmul (dose_mg_per_vial r') (of_Z 10)) = true) ∧
    (notna (dose_mg_per_vial r) = false →
       total_mg_per_kit r' = total_mg_per_kit r).
Proof.
  intros Hi. exists (normalize_total_row r).
  split; [unfold normalize_total; by rewrite list_lookup_fmap, Hi|].
  unfold normalize_total_row.
  destruct (notna (dose_mg_per_vial r)) eqn:Hd; simpl.
  - split; [done|]. split; [|done]. intros _. split; [done|].
    by apply feq_refl, times_ten_notna.
  - done.
Qed.

Lemma normalize_total_known_dose_witness :
  ∃ r', normalize_total [three_vial_row] !! 0%nat = Some r' ∧
        view (total_mg_per_kit r') = VFin 50 1.
Proof.
  destruct (normalize_total_known_dose [three_vial_row] 0 three_vial_row eq_refl)
    as (r' & Hr' & _ & Hknown & _).
  exists r'. split; [done|].
  destruct (Hknown eq_refl) as [_ _].
  injection Hr' as <-. reflexivity.
Defined.

(** The override leaves every field but the total alone. *)
Lemma normalize_total_row_frame (r : df_row) :
  let r' := normalize_total_row r in
  vendor r' = vendor r ∧ product_name r' = product_name r ∧
  spec_raw r' = spec_raw r ∧ price_usd r' = price_usd r ∧
  dose_mg_per_vial r' = dose_mg_per_vial r ∧
  vials_per_kit r' = vials_per_kit r ∧
  price_per_mg r' = price_per_mg r ∧ source_file r' = source_file r.
Proof. simpl. unfold normalize_total_row. by destruct (notna _). Qed.





End KitSize.

(** ** Persistent selection *)

Section Selection.

Import App.



(** The two cases of the specification. *)
Lemma update_selection_examples :
  update_selection ["X|5|50"] [("Y|10|100", false)] = ["X|5|50"] ∧
  update_selection ["X|5|50"] [("X|5|50", false)] = [].
Proof. split; by vm_compute. Qed.

(** Any visible set with any checked subset is the state of some editor. *)
Lemma editor_of_sets (visible checked : gset string) :
  checked ⊆ visible →
  ∃ edited : editor, visible_keys edited = visible ∧ checked_keys edited = checked.
Proof.
  intros Hsub.
  exists ((λ k, (k, bool_decide (k ∈ checked))) <$> elements visible).
  unfold visible_keys, checked_keys. split.
  - assert (∀ l : list string,
              fst <$> ((λ k, (k, bool_decide (k ∈ checked))) <$> l) = l) as ->.
    { induction l as [|k l IH]; [done|]. csimpl. by rewrite IH. }
    apply list_to_set_elements_L.
  - apply set_eq. intros k.
    rewrite elem_of_list_to_set, list_elem_of_fmap. split.
    + intros ([k' b] & -> & Hin). apply list_elem_of_filter in Hin as [Hb Hin].
      apply list_elem_of_fmap in Hin as (k'' & [= -> ->] & _). simpl in *.
      by apply bool_decide_eq_true in Hb.
    + intros Hk. exists (k, true). split; [done|].
      apply list_elem_of_filter. split; [done|].
      apply list_elem_of_fmap. exists k. split.
      * by rewrite bool_decide_eq_true_2.
      * apply elem_of_elements. by apply Hsub.
Qed.

(** *** Decoding the stored keys *)

Lemma float_or_none_total s : float_or_none s = Ok (float_or_missing s).
Proof.
  unfold float_or_none, float_or_missing.
  destruct (float_of_str_cases s) as [[v ->]| ->]; done.
Qed.

Lemma decode_key_three_parts key pep dose_str total_str :
  split_bar key = [pep; dose_str; total_str] →
  decode_key key = Ok (pep, float_or_missing dose_str, float_or_missing total_str).
Proof.
  intros Hs. unfold decode_key. rewrite Hs.
  by rewrite !float_or_none_total.
Qed.

Lemma decode_key_other_parts key :
  length (split_bar key) ≠ 3%nat → decode_key key = Raise ValueError.
Proof.
  unfold decode_key. destruct (split_bar key) as [|a [|b [|c [|d l]]]]; done.
Qed.




End Selection.

(** ** Insertion sort *)

Section InsertionSort.

Import App.

Context {A : Type} (leb : A → A → bool) (P : A → Prop).
Hypothesis leb_total : ∀ a b, P a → P b → leb a b = true ∨ leb b a = true.
Hypothesis leb_trans :
  ∀ a b c, P a → P b → P c → leb a b = true → leb b c = true → leb a c = true.

Lemma insert_sorted_perm x l : insert_sorted leb x l ≡ₚ x :: l.
Proof.
  induction l as [|y l IH]; simpl; [done|].
  destruct (leb x y); [done|]. rewrite IH. apply Permutation_swap.
Qed.

Lemma isort_perm l : isort leb l ≡ₚ l.
Proof.
  induction l as [|x l IH]; simpl; [done|].
  by rewrite insert_sorted_perm, IH.
Qed.

Lemma insert_sorted_strongly x l :
  P x → Forall P l →
  StronglySorted (λ a b, leb a b = true) l →
  StronglySorted (λ a b, leb a b = true) (insert_sorted leb x l).
Proof.
  intros Hx HP Hs. induction Hs as [|y l Hs IH Hy]; simpl.
  - by repeat constructor.
  - apply Forall_cons in HP as [HPy HPl].
    destruct (leb x y) eqn:Hxy.
    + constructor; [by constructor|].
      constructor; [done|].
      rewrite Forall_forall in Hy, HPl |- *. intros z Hz.
      apply (leb_trans x y z); auto.
    + constructor; [by apply IH|].
      rewrite insert_sorted_perm. constructor; [|done].
      destruct (leb_total x y Hx HPy); congruence.
Qed.

Lemma isort_strongly l :
  Forall P l → StronglySorted (λ a b, leb a b = true) (isort leb l).
Proof.
  induction 1 as [|x l Hx Hl IH]; simpl; [constructor|].
  apply insert_sorted_strongly; [done| |done].
  by rewrite isort_perm.
Qed.

End InsertionSort.

(** ** The order of floats *)

Section FloatOrder.

Lemma flt_irrefl x : flt x x = false.
Proof.
  destruct x as [a|s|]; simpl; [|by destruct s|done].
  apply bool_decide_eq_false. intros H. by apply Qclt_not_eq in H.
Qed.

Lemma flt_trans x y z : flt x y = true → flt y z = true → flt x z = true.
Proof.
  destruct x as [a|[]|], y as [b|[]|], z as [c|[]|]; simpl; try done.
  intros H1%bool_decide_eq_true H2%bool_decide_eq_true.
  apply bool_decide_eq_true. by eapply Qclt_trans.
Qed.

Lemma feq_eq x y : feq x y = true → x = y.
Proof.
  destruct x as [a|s|], y as [b|t|]; simpl; try done.
  - by intros ->%bool_decide_eq_true.
  - by intros ->%Bool.eqb_prop.
Qed.

Lemma fle_total x y :
  notna x = true → notna y = true → fle x y = true ∨ fle y x = true.
Proof.
  unfold fle.
  destruct x as [a|s|], y as [b|t|]; simpl; try done; intros _ _.
  - destruct (Qc_dec a b) as [[Hlt|Hgt]| ->].
    + left. by rewrite (bool_decide_eq_true_2 _ Hlt).
    + right. by rewrite (bool_decide_eq_true_2 _ Hgt).
    + left. rewrite (bool_decide_eq_true_2 (b = b)) by done. apply orb_true_r.
  - destruct t; auto.
  - destruct s; auto.
  - destruct s, t; auto.
Qed.

Lemma fle_cases x y : fle x y = true → flt x y = true ∨ x = y.
Proof.
  unfold fle. intros [H|H]%orb_true_iff; [by left|right; by apply feq_eq].
Qed.

Lemma fle_trans x y z : fle x y = true → fle y z = true → fle x z = true.
Proof.
  intros [Hxy| ->]%fle_cases; [|done].
  intros [Hyz| <-]%fle_cases; unfold fle.
  - by rewrite (flt_trans _ _ _ Hxy Hyz).
  - by rewrite Hxy.
Qed.

(** Once [x <= y], nothing from [y] upwards is below [x]. *)
Lemma fle_not_below x y z :
  fle x y = true → fle y z = true → flt z x = false.
Proof.
  intros Hxy Hyz. pose proof (fle_trans _ _ _ Hxy Hyz) as Hxz.
  destruct (flt z x) eqn:Hzx; [|done].
  apply fle_cases in Hxz as [Hlt| ->].
  - pose proof (flt_trans _ _ _ Hlt Hzx) as H. by rewrite flt_irrefl in H.
  - by rewrite flt_irrefl in Hzx.
Qed.

Lemma flt_false_fle x y :
  notna x = true → notna y = true → flt y x = false → fle x y = true.
Proof.
  intros Hx Hy Hlt. destruct (fle_total x y Hx Hy) as [?|Hle]; [done|].
  apply fle_cases in Hle as [?| ->]; [congruence|].
  unfold fle. rewrite feq_refl; [apply orb_true_r|done].
Qed.

Lemma flt_notna x y : flt x y = true → notna x = true ∧ notna y = true.
Proof. by destruct x, y. Qed.

(** Three floats that are present are comparable. *)
Lemma flt_trichotomy x y :
  notna x = true → notna y = true → flt x y = true ∨ x = y ∨ flt y x = true.
Proof.
  intros Hx Hy. destruct (flt y x) eqn:Hyx; [auto|].
  apply flt_false_fle in Hyx; [|done..].
  apply fle_cases in Hyx as [?|?]; auto.
Qed.

End FloatOrder.

(** ** Ranking *)

Section Ranking.

Import App.

Lemma first_pos_sorted x l :
  notna x = true → Forall (λ y, notna y = true) l →
  StronglySorted (λ a b, fle a b = true) l →
  first_pos x l = count_below x l.
Proof.
  intros Hx Hl Hs. unfold count_below.
  induction Hs as [|y l Hs IH Hy]; simpl; [done|].
  apply Forall_cons in Hl as [Hyn Hl].
  rewrite filter_cons. destruct (flt y x) eqn:Hyx.
  - rewrite decide_True by done. simpl. by rewrite IH.
  - rewrite decide_False by congruence.
    assert (filter (λ z, flt z x = true) l = []) as ->; [|done].
    clear IH Hs Hl. induction Hy as [|z l Hz _ IH]; [done|].
    rewrite filter_cons_False; [done|].
    rewrite (fle_not_below x y z); [done| |done].
    by apply flt_false_fle.
Qed.

Lemma count_below_present x cells :
  count_below x (filter (λ y, notna y = true) cells) = count_below x cells.
Proof.
  unfold count_below. induction cells as [|y cells IH]; [done|].
  rewrite !filter_cons. destruct (notna y) eqn:Hy.
  - rewrite (decide_True (P := true = true)) by done.
    rewrite filter_cons. destruct (decide _); simpl; by rewrite IH.
  - rewrite (decide_False (P := false = true)) by done.
    rewrite decide_False; [done|].
    intros [? _]%flt_notna. congruence.
Qed.

Lemma rank_min_lookup cells i x :
  cells !! i = Some x →
  rank_min cells !! i =
    Some (if notna x then Some (S (count_below x cells)) else None).
Proof.
  intros Hi. unfold rank_min. rewrite list_lookup_fmap, Hi. simpl.
  destruct (notna x) eqn:Hx; [|done]. do 2 f_equal. f_equal.
  rewrite first_pos_sorted; [| done | |].
  - unfold count_below.
    rewrite (Permutation_length
               (filter_Permutation _ _ _ (isort_perm fle _))).
    apply count_below_present.
  - rewrite isort_perm. apply Forall_forall.
    by intros y [? _]%list_elem_of_filter.
  - apply (isort_strongly fle (λ y, notna y = true)).
    + intros. by apply fle_total.
    + intros. by eapply fle_trans.
    + apply Forall_forall. by intros y [? _]%list_elem_of_filter.
Qed.




(** What is drawn from the masks: a cell with a price shows the marker
    of its mask, and a cell without a price is blank whatever its rank. *)
Lemma cell_marker_of_masks price is_best is_second :
  (notna price = true →
     (cell_marker price is_best is_second = Some Best ↔ is_best = true) ∧
     (cell_marker price is_best is_second = Some SecondBest ↔
        is_best = false ∧ is_second = true)) ∧
  (notna price = false → cell_marker price is_best is_second = None).
Proof.
  unfold cell_marker, notna. destruct (isnan price); simpl.
  - split; [done|done].
  - split; [|done]. intros _.
    destruct is_best, is_second; split; split; (done || by intros []).
Qed.

End Ranking.

(** ** Price list of the selected rows *)

Section PriceList.

Import App.

(** *** Sums and minima of floats *)

Lemma fadd_comm x y : fadd x y = fadd y x.
Proof.
  destruct x as [a|[]|], y as [b|[]|]; simpl; try done.
  by rewrite Qcplus_comm.
Qed.

Lemma fadd_assoc x y z : fadd x (fadd y z) = fadd (fadd x y) z.
Proof.
  destruct x as [a|[]|], y as [b|[]|], z as [c|[]|]; simpl; try done.
  by rewrite Qcplus_assoc.
Qed.

Lemma fsum_perm l l' : l ≡ₚ l' → fsum l = fsum l'.
Proof.
  unfold fsum. induction 1 as [|x l l' _ IH|x y l|l l' l'' _ IH1 _ IH2]; simpl.
  - done.
  - by rewrite IH.
  - by rewrite !fadd_assoc, (fadd_comm y x).
  - congruence.
Qed.

Lemma fmin_same p : fmin p p = p.
Proof. unfold fmin. by rewrite flt_irrefl. Qed.

Lemma min_of_constant p l :
  l ≠ [] → Forall (λ x, x = p) l → min_of l = p.
Proof.
  destruct l as [|x l]; [done|]. intros _ [-> Hl]%Forall_cons. simpl.
  induction Hl as [|y l -> _ IH]; simpl; [done|]. by rewrite fmin_same.
Qed.

(** *** The order of [sort_values] *)

Lemma total_leb_total (a b : string * pyfloat) :
  total_leb a b = true ∨ total_leb b a = true.
Proof.
  unfold total_leb. destruct (isnan b.2) eqn:Hb; [by left|].
  destruct (isnan a.2) eqn:Ha; [by right|]. simpl.
  apply fle_total; unfold notna; by rewrite ?Ha, ?Hb.
Qed.

Lemma fle_notna x y : fle x y = true → notna x = true ∧ notna y = true.
Proof. by destruct x, y. Qed.

Lemma total_leb_trans (a b c : string * pyfloat) :
  total_leb a b = true → total_leb b c = true → total_leb a c = true.
Proof.
  unfold total_leb. destruct (isnan c.2) eqn:Hc; [done|]. simpl.
  intros Hab Hbc. destruct (fle_notna _ _ Hbc) as [Hb _].
  unfold notna in Hb. apply negb_true_iff in Hb. rewrite Hb in Hab. simpl in Hab.
  by eapply fle_trans.
Qed.

(** *** The merge *)

Lemma elem_of_merge_left sel grouped m :
  m ∈ merge_left sel grouped ↔
  ∃ k, k ∈ sel ∧
       ((filter (λ g, grp_key g = k) grouped = [] ∧ m = blank_row k) ∨
        (∃ g, g ∈ grouped ∧ grp_key g = k ∧ m = joined_row k g)).
Proof.
  unfold merge_left. rewrite list_elem_of_bind. split.
  - intros (k & Hm & Hk). exists k. split; [done|].
    destruct (filter _ grouped) as [|g0 gs] eqn:Hf.
    + left. apply list_elem_of_singleton in Hm. done.
    + right. apply list_elem_of_fmap in Hm as (g & -> & Hg).
      rewrite <-Hf in Hg. apply list_elem_of_filter in Hg as [Hkey Hg].
      by exists g.
  - intros (k & Hk & [[Hf ->]|(g & Hg & Hkey & ->)]); exists k; (split; [|done]).
    + rewrite Hf. by apply list_elem_of_singleton.
    + assert (g ∈ filter (λ g, grp_key g = k) grouped) as Hin
        by by apply list_elem_of_filter.
      destruct (filter _ grouped) as [|g0 gs] eqn:Hf; [by apply not_elem_of_nil in Hin|].
      apply list_elem_of_fmap. by exists g.
Qed.

Lemma pivot_entry_merged sel grouped m idx v :
  m ∈ merge_left sel grouped → pivot_entry m = Some (idx, v) →
  ∃ g, g ∈ grouped ∧ feeds sel idx v g ∧ m_price_usd m = grp_price_usd g.
Proof.
  intros (k & Hk & [[_ ->]|(g & Hg & Hkey & ->)])%elem_of_merge_left; [done|].
  unfold pivot_entry. simpl.
  destruct (notna k.1.2) eqn:Hd; [|done].
  destruct (notna (grp_price_usd g)) eqn:Hp; [|done]. simpl.
  intros [= <- <-]. exists g. split; [done|]. split; [|done].
  unfold feeds. rewrite <-Hkey in Hk, Hd |- *. by repeat split.
Qed.

Lemma merged_of_feeds sel grouped idx v g :
  g ∈ grouped → feeds sel idx v g →
  ∃ m, m ∈ merge_left sel grouped ∧ pivot_entry m = Some (idx, v) ∧
       m_price_usd m = grp_price_usd g.
Proof.
  intros Hg (Hidx & Hv & Hd & Hp & Hsel).
  exists (joined_row (grp_key g) g). split; [|split; [|done]].
  - apply elem_of_merge_left. exists (grp_key g). split; [done|].
    right. by exists g.
  - unfold pivot_entry. simpl. rewrite Hd, Hp. simpl. by rewrite Hidx, Hv.
Qed.

Lemma fmap_inj_on {B C} (f : B → C) (l : list B) x y :
  NoDup (f <$> l) → x ∈ l → y ∈ l → f x = f y → x = y.
Proof.
  induction l as [|z l IH]; [by intros _ ?%not_elem_of_nil|].
  rewrite fmap_cons, NoDup_cons.
  intros [Hz Hl] [->|Hx]%elem_of_cons [->|Hy]%elem_of_cons Hf; auto.
  - destruct Hz. rewrite Hf. by apply list_elem_of_fmap_2.
  - destruct Hz. rewrite <-Hf. by apply list_elem_of_fmap_2.
Qed.

Lemma filter_fmap_comm {B C} (f : B → C) (p : C → bool) (l : list B) :
  filter (λ y, p y = true) (f <$> l) = f <$> filter (λ x, p (f x) = true) l.
Proof.
  induction l as [|x l IH]; [done|].
  rewrite fmap_cons, !filter_cons. destruct (decide _); by rewrite IH.
Qed.

Lemma filter_all {B} (P : B → Prop) `{∀ x, Decision (P x)} (l : list B) :
  Forall P l → filter P l = l.
Proof.
  induction 1 as [|x l Hx _ IH]; [done|].
  rewrite filter_cons_True by done. by rewrite IH.
Qed.

(** *** The pivot over a well-formed [grouped]

    [grouped] comes from a [groupby] on its four key columns, after rows
    without a dose were dropped and after the kit-size rule made every
    total ten times the dose. *)

Section Pivot.

Context (sel : list sel_row) (grouped : list grouped_row).
Hypothesis wf : grouped_wf grouped.

Local Abbreviation merged := (merge_left sel grouped).

Lemma feeds_priced_rows idx v g :
  g ∈ grouped → (feeds sel idx v g ↔ index_of g = idx ∧ g ∈ priced_rows sel grouped v).
Proof.
  intros Hg. unfold feeds, priced_rows, index_of.
  rewrite list_elem_of_filter. pose proof (grouped_dose_known _ wf g Hg). tauto.
Qed.

Lemma feeds_unique idx v g g' :
  g ∈ grouped → g' ∈ grouped → feeds sel idx v g → feeds sel idx v g' → g = g'.
Proof.
  intros Hg Hg' (Hidx & Hv & _) (Hidx' & Hv' & _).
  apply (fmap_inj_on _ _ _ _ (grouped_keys_unique _ wf) Hg Hg').
  unfold grp_key. rewrite (grouped_total_rule _ wf g Hg), (grouped_total_rule _ wf g' Hg').
  rewrite <-Hidx' in Hidx. injection Hidx as -> ->. by rewrite Hv, Hv'.
Qed.

Lemma pivot_cell_feeds idx v g :
  g ∈ grouped → feeds sel idx v g → pivot_cell merged idx v = grp_price_usd g.
Proof.
  intros Hg Hf. unfold pivot_cell. apply min_of_constant.
  - destruct (merged_of_feeds sel grouped idx v g Hg Hf) as (m & Hm & He & _).
    intros Hnil%fmap_nil_inv.
    assert (m ∈ filter (λ m, pivot_entry m = Some (idx, v)) merged) as Hin
      by by apply list_elem_of_filter.
    rewrite Hnil in Hin. by apply not_elem_of_nil in Hin.
  - apply Forall_fmap, Forall_forall. intros m [He Hm]%list_elem_of_filter. simpl.
    destruct (pivot_entry_merged _ _ _ _ _ Hm He) as (g' & Hg' & Hf' & ->).
    by rewrite (feeds_unique idx v g g').
Qed.

Lemma pivot_cell_notna idx v :
  notna (pivot_cell merged idx v) = true ↔ ∃ g, g ∈ grouped ∧ feeds sel idx v g.
Proof.
  split.
  - unfold pivot_cell.
    destruct (filter (λ m, pivot_entry m = Some (idx, v)) merged) as [|m l] eqn:Hf;
      [done|]. intros _.
    assert (m ∈ filter (λ m, pivot_entry m = Some (idx, v)) merged) as Hin
      by (rewrite Hf; left).
    apply list_elem_of_filter in Hin as [He Hm].
    destruct (pivot_entry_merged _ _ _ _ _ Hm He) as (g & Hg & Hfeeds & _).
    by exists g.
  - intros (g & Hg & Hf). rewrite (pivot_cell_feeds idx v g Hg Hf).
    by destruct Hf as (_ & _ & _ & ? & _).
Qed.

Lemma elem_of_pivot_entries idx v :
  (idx, v) ∈ omap pivot_entry merged ↔ ∃ g, g ∈ grouped ∧ feeds sel idx v g.
Proof.
  rewrite list_elem_of_omap. split.
  - intros (m & Hm & He).
    destruct (pivot_entry_merged _ _ _ _ _ Hm He) as (g & Hg & Hf & _). eauto.
  - intros (g & Hg & Hf).
    destruct (merged_of_feeds sel grouped idx v g Hg Hf) as (m & Hm & He & _). eauto.
Qed.

Lemma elem_of_pivot_index idx :
  idx ∈ pivot_index merged ↔ ∃ v g, g ∈ grouped ∧ feeds sel idx v g.
Proof.
  unfold pivot_index. rewrite isort_perm, elem_of_remove_dups, list_elem_of_fmap.
  split.
  - intros ([idx' v] & -> & He). exists v. by apply elem_of_pivot_entries.
  - intros (v & Hg). exists (idx, v). split; [done|]. by apply elem_of_pivot_entries.
Qed.

Lemma elem_of_pivot_columns v :
  v ∈ pivot_columns merged ↔ ∃ idx g, g ∈ grouped ∧ feeds sel idx v g.
Proof.
  unfold pivot_columns. rewrite isort_perm, elem_of_remove_dups, list_elem_of_fmap.
  split.
  - intros ([idx v'] & -> & He). exists idx. by apply elem_of_pivot_entries.
  - intros (idx & Hg). exists (idx, v). split; [done|]. by apply elem_of_pivot_entries.
Qed.

Lemma NoDup_pivot_index : NoDup (pivot_index merged).
Proof. unfold pivot_index. rewrite isort_perm. apply NoDup_remove_dups. Qed.

Lemma NoDup_pivot_columns : NoDup (pivot_columns merged).
Proof. unfold pivot_columns. rewrite isort_perm. apply NoDup_remove_dups. Qed.

Lemma elem_of_pivot_columns_priced v :
  v ∈ pivot_columns merged ↔ vendor_prices sel grouped v ≠ [].
Proof.
  rewrite elem_of_pivot_columns. unfold vendor_prices. split.
  - intros (idx & g & Hg & Hf) Hnil%fmap_nil_inv.
    apply feeds_priced_rows in Hf as [_ Hin]; [|done].
    rewrite Hnil in Hin. by apply not_elem_of_nil in Hin.
  - destruct (priced_rows sel grouped v) as [|g l] eqn:Hp; [done|]. intros _.
    assert (g ∈ priced_rows sel grouped v) as Hin by (rewrite Hp; left).
    assert (g ∈ grouped) as Hg.
    { unfold priced_rows in Hin. by apply list_elem_of_filter in Hin as [_ ?]. }
    exists (index_of g), g. split; [done|]. by apply feeds_priced_rows.
Qed.

(** The present cells of a column are the prices of the vendor across
    the selected rows, each once. *)
Lemma column_cells_perm v :
  filter (λ x, notna x = true) ((λ idx, pivot_cell merged idx v) <$> pivot_index merged)
    ≡ₚ vendor_prices sel grouped v.
Proof.
  rewrite (filter_fmap_comm (λ idx, pivot_cell merged idx v) notna).
  unfold vendor_prices.
  transitivity ((λ idx, pivot_cell merged idx v) <$> (index_of <$> priced_rows sel grouped v)).
  - apply fmap_Permutation, NoDup_Permutation.
    + apply NoDup_filter, NoDup_pivot_index.
    + apply NoDup_fmap_2_strong.
      * intros g g' Hg Hg' Hidx.
        assert (g ∈ grouped ∧ g' ∈ grouped) as [Hin Hin'].
        { unfold priced_rows in Hg, Hg'.
          apply list_elem_of_filter in Hg as [_ ?].
          by apply list_elem_of_filter in Hg' as [_ ?]. }
        apply (feeds_unique (index_of g) v); [done..| |].
        -- by apply feeds_priced_rows.
        -- apply feeds_priced_rows; [done|]. by rewrite Hidx.
      * apply NoDup_filter. eapply NoDup_fmap_1, grouped_keys_unique, wf.
    + intros idx. rewrite list_elem_of_filter, pivot_cell_notna, list_elem_of_fmap.
      split.
      * intros [(g & Hg & Hf) _]. exists g.
        apply feeds_priced_rows in Hf as [? ?]; done.
      * intros (g & -> & Hin).
        assert (g ∈ grouped) as Hg.
        { unfold priced_rows in Hin. by apply list_elem_of_filter in Hin as [_ ?]. }
        assert (feeds sel (index_of g) v g) as Hf by by apply feeds_priced_rows.
        split; [eauto|]. apply elem_of_pivot_index. eauto.
  - rewrite <-list_fmap_compose.
    assert (((λ idx, pivot_cell merged idx v) ∘ index_of) <$> priced_rows sel grouped v
            = grp_price_usd <$> priced_rows sel grouped v) as ->; [|done].
    apply Forall_fmap_ext, Forall_forall. intros g Hin. simpl.
    assert (g ∈ grouped) as Hg.
    { unfold priced_rows in Hin. by apply list_elem_of_filter in Hin as [_ ?]. }
    apply pivot_cell_feeds; [done|]. by apply feeds_priced_rows.
Qed.

Lemma sum_skipna_column v :
  sum_skipna ((λ idx, pivot_cell merged idx v) <$> pivot_index merged)
    = fsum (vendor_prices sel grouped v).
Proof. unfold sum_skipna. apply fsum_perm, column_cells_perm. Qed.

Lemma drop_empty_columns_pivot :
  drop_empty_columns (pivot_table merged) = pivot_table merged.
Proof.
  unfold drop_empty_columns. apply filter_all.
  unfold pivot_table. apply Forall_fmap, Forall_forall. intros v Hv. simpl.
  apply elem_of_pivot_columns in Hv as (idx & g & Hg & Hf).
  apply existsb_exists. exists (pivot_cell merged idx v). split.
  - apply list_elem_of_In, list_elem_of_fmap. exists idx. split; [done|].
    apply elem_of_pivot_index. eauto.
  - apply pivot_cell_notna. eauto.
Qed.

End Pivot.

End PriceList.

Section PriceListTheorem.

Import App.

Lemma select_columns_fst (p : list (string * list pyfloat)) (vs : list string) :
  (∀ v, v ∈ vs → v ∈ fst <$> p) → fst <$> select_columns p vs = vs.
Proof.
  unfold select_columns.
  set (F := λ v : string, find (λ col : string * list pyfloat, (col.1 =? v)%string) p).
  induction vs as [|v vs IH]; intros Hall; [done|].
  replace (omap F (v :: vs))
    with (match F v with Some y => y :: omap F vs | None => omap F vs end) by done.
  unfold F at 1.
  destruct (find (λ col : string * list pyfloat, (col.1 =? v)%string) p)
    as [col|] eqn:Hfind.
  - apply find_some in Hfind as [_ Heq]. apply String.eqb_eq in Heq.
    rewrite fmap_cons, Heq, IH; [done|]. intros. apply Hall. by right.
  - exfalso.
    assert (v ∈ fst <$> p) as Hin by (apply Hall; left).
    apply list_elem_of_fmap in Hin as (col & -> & Hcol).
    apply list_elem_of_In in Hcol.
    apply (find_none _ _ Hfind) in Hcol. simpl in Hcol.
    by rewrite String.eqb_refl in Hcol.
Qed.

(** C9. For a non-empty selection and the [grouped] table of the run,
    the price list keeps a vendor column exactly when the vendor has a
    price in at least one selected row; the TOTAL of a kept vendor is the
    sum of its prices across the selected rows, rows without a price of
    that vendor contributing nothing; and the vendor columns stand in
    ascending order of their totals.  When no vendor has a price the
    "no prices" notice is shown instead. *)
Theorem price_list_projection
    (selected_keys : list (string * option pyfloat * option pyfloat))
    (grouped : list grouped_row) :
  selected_keys ≠ [] → grouped_wf grouped →
  let sel := sel_df selected_keys in
  match price_list_of selected_keys grouped with
  | SelectRows => False
  | NoPrices => ∀ v, vendor_prices sel grouped v = []
  | PriceTable columns total_row =>
      (∀ v, v ∈ fst <$> total_row ↔ vendor_prices sel grouped v ≠ []) ∧
      NoDup (fst <$> total_row) ∧
      (∀ v t, (v, t) ∈ total_row → t = fsum (vendor_prices sel grouped v)) ∧
      StronglySorted (λ a b, total_leb a b = true) total_row ∧
      fst <$> columns = fst <$> total_row
  end.
Proof.
  intros Hne wf sel. unfold price_list_of.
  destruct selected_keys as [|k0 ks]; [done|]. cbv zeta. fold sel.
  rewrite !(drop_empty_columns_pivot sel grouped wf).
  set (merged := merge_left sel grouped).
  set (pt := pivot_table merged).
  set (vt := (λ col : string * list pyfloat, (col.1, sum_skipna col.2)) <$> pt).
  assert (fst <$> pt = pivot_columns merged) as Hpt.
  { unfold pt, pivot_table. rewrite <-list_fmap_compose. simpl.
    clear. induction (pivot_columns merged) as [|v l IH]; [done|].
    by rewrite fmap_cons, IH. }
  assert (fst <$> vt = pivot_columns merged) as Hvt.
  { rewrite <-Hpt. unfold vt. rewrite <-list_fmap_compose.
    clear. induction pt as [|c l IH]; [done|]. by rewrite !fmap_cons, IH. }
  assert (isort total_leb vt ≡ₚ vt) as Hperm by apply isort_perm.
  assert (∀ v t, (v, t) ∈ vt → t = fsum (vendor_prices sel grouped v)) as Htot.
  { intros v t (col & [= -> ->] & Hcol)%list_elem_of_fmap.
    unfold pt, pivot_table in Hcol.
    apply list_elem_of_fmap in Hcol as (v & -> & Hv). simpl.
    apply (sum_skipna_column sel grouped wf). }
  destruct pt as [|c l] eqn:Hc.
  - intros v. destruct (vendor_prices sel grouped v) eqn:Hp; [done|].
    assert (v ∈ pivot_columns merged) as Hin.
    { apply (elem_of_pivot_columns_priced sel grouped wf). by rewrite Hp. }
    rewrite <-Hpt in Hin. by apply not_elem_of_nil in Hin.
  - fold vt. split; [|split; [|split; [|split]]].
    + intros v. rewrite Hperm, Hvt.
      apply (elem_of_pivot_columns_priced sel grouped wf).
    + rewrite Hperm, Hvt. apply NoDup_pivot_columns.
    + intros v t Hin. rewrite Hperm in Hin. by apply Htot.
    + apply (isort_strongly total_leb (λ _, True)).
      * intros. apply total_leb_total.
      * intros. by eapply total_leb_trans.
      * by apply Forall_forall.
    + apply select_columns_fst. intros v Hv.
      rewrite Hperm, Hvt in Hv. by rewrite Hpt.
Qed.

End PriceListTheorem.

(** *** The [grouped] table of a run is well formed *)

Section Grouped.

Import App.

Lemma canonical_rows_total_rule df : Forall total_rule (canonical_rows df).
Proof.
  unfold canonical_rows. apply Forall_fmap, Forall_forall. intros r _.
  unfold total_rule, normalize_total_row. simpl.
  destruct (notna (dose_mg_per_vial r)) eqn:Hd; simpl; [done|congruence].
Qed.

Lemma elem_of_filter_weaken {B} (P : B → Prop) `{∀ x, Decision (P x)}
    (l : list B) (x : B) :
  x ∈ filter P l → x ∈ l.
Proof. by intros [_ ?]%list_elem_of_filter. Qed.

Lemma apply_filters_sublist peptides vendors only_with_ppm rows cr :
  cr ∈ apply_filters peptides vendors only_with_ppm rows → cr ∈ rows.
Proof.
  unfold apply_filters. intros H.
  destruct only_with_ppm, vendors, peptides;
    repeat apply elem_of_filter_weaken in H; done.
Qed.

Lemma grouped_of_wf filt : Forall total_rule filt → grouped_wf (grouped_of filt).
Proof.
  intros Hrule. unfold grouped_of.
  set (keys := isort group_key_leb (remove_dups (omap group_key_of filt))).
  assert (NoDup keys) as Hnd.
  { unfold keys. rewrite isort_perm. apply NoDup_remove_dups. }
  assert (∀ key, key ∈ keys →
            notna key.1.1.2 = true ∧ key.1.2 = fmul key.1.1.2 (of_Z 10)) as Hkey.
  { intros key. unfold keys.
    rewrite isort_perm, elem_of_remove_dups, list_elem_of_omap.
    intros (cr & Hcr & Hk). rewrite Forall_forall in Hrule.
    specialize (Hrule cr Hcr). unfold total_rule in Hrule.
    unfold group_key_of in Hk. destruct cr.1; [|done].
    destruct (notna (dose_mg_per_vial cr.2)) eqn:Hd; [|done].
    destruct (notna (total_mg_per_kit cr.2)); [|done].
    injection Hk as <-. simpl. auto. }
  split.
  - rewrite <-list_fmap_compose. apply NoDup_fmap_2_strong; [|done].
    intros [[[c d] t] v] [[[c' d'] t'] v'] _ _. simpl. by intros [= -> -> -> ->].
  - intros g (key & -> & Hin)%list_elem_of_fmap. simpl. by apply Hkey.
  - intros g (key & -> & Hin)%list_elem_of_fmap. simpl. by apply Hkey.
Qed.

(** The table that [main] groups: any filter of the canonical rows. *)
Lemma grouped_of_run_wf df peptides vendors only_with_ppm :
  grouped_wf (grouped_of (apply_filters peptides vendors only_with_ppm
                                        (canonical_rows df))).
Proof.
  apply grouped_of_wf, Forall_forall. intros cr Hcr.
  apply apply_filters_sublist in Hcr.
  pose proof (canonical_rows_total_rule df) as H.
  rewrite Forall_forall in H. by apply H.
Qed.

Lemma price_list_projection_witness :
  ∃ columns total,
    price_list_of two_rows_selected two_rows_grouped = PriceTable columns [("CN", total)] ∧
    view total = VFin 81 1 ∧
    total = fsum (vendor_prices (sel_df two_rows_selected) two_rows_grouped "CN").
Proof.
  pose proof (price_list_projection two_rows_selected two_rows_grouped) as H.
  assert (∃ columns total,
            price_list_of two_rows_selected two_rows_grouped
              = PriceTable columns [("CN", total)] ∧ view total = VFin 81 1)
    as (columns & total & Heq & Hview).
  { eexists _, _. split; vm_compute; reflexivity. }
  exists columns, total. split; [done|]. split; [done|].
  rewrite Heq in H.
  destruct H as (_ & _ & Htotal & _).
  - done.
  - apply grouped_of_run_wf.
  - apply Htotal. left.
Defined.

End Grouped.

(** *** The keys that the table builds split into three parts *)

Section RowKeys.

Import App.

Lemma all_chars_drop_while q p s :
  all_chars q s = true → all_chars q (drop_while p s) = true.
Proof.
  induction s as [|c r IH]; simpl; [done|].
  intros [Hc Hr]%andb_true_iff. destruct (p c); [auto|].
  simpl. by rewrite Hc, Hr.
Qed.

Lemma all_chars_strip_with q p s :
  all_chars q s = true → all_chars q (strip_with p s) = true.
Proof.
  intros H. unfold strip_with. rewrite all_chars_srev.
  apply all_chars_drop_while. rewrite all_chars_srev.
  by apply all_chars_drop_while.
Qed.

(** Collapsing the runs of [p] leaves the characters outside [p] and
    spaces. *)
Lemma all_chars_collapse_runs (p q : ascii → bool) in_run s :
  (∀ c, p c = false → q c = true) → q " "%char = true →
  all_chars q (collapse_runs p in_run s) = true.
Proof.
  intros Hpq Hsp. revert in_run.
  induction s as [|c r IH]; intros in_run; simpl; [done|].
  destruct (p c) eqn:Hc.
  - destruct in_run; simpl; [apply IH|]. by rewrite Hsp, IH.
  - simpl. by rewrite (Hpq c Hc), IH.
Qed.

Lemma all_chars_collapse_runs_keep (p q : ascii → bool) in_run s :
  q " "%char = true → all_chars q s = true →
  all_chars q (collapse_runs p in_run s) = true.
Proof.
  intros Hsp. revert in_run.
  induction s as [|c r IH]; intros in_run; simpl; [done|].
  intros [Hc Hr]%andb_true_iff.
  destruct (p c); [destruct in_run|]; simpl; rewrite ?Hsp, ?Hc, ?IH; done.
Qed.

Lemma tokencleanup_no_bar s : has_char "|" (tokencleanup s) = false.
Proof.
  unfold tokencleanup, strip.
  apply (has_char_all_chars (λ c, is_word c || Ascii.eqb c " "%char)); [|done].
  apply all_chars_strip_with, all_chars_collapse_runs_keep; [done|].
  apply all_chars_collapse_runs; [|done].
  intros c Hc. apply negb_false_iff in Hc. by rewrite Hc.
Qed.

Lemma canonical_peptide_no_bar s : has_char "|" (canonical_peptide s) = false.
Proof.
  destruct (canonical_peptide_cases s) as [->|Hin]; [apply tokencleanup_no_bar|].
  assert (forallb (λ l, negb (has_char "|" l)) alias_literals = true)
    as Hall by (vm_compute; reflexivity).
  rewrite forallb_forall in Hall. apply list_elem_of_In, Hall in Hin.
  by apply negb_true_iff.
Qed.

Lemma split_bar_no_bar s : has_char "|" s = false → split_bar s = [s].
Proof.
  induction s as [|c r IH]; simpl; [done|].
  intros [Hc Hr]%orb_false_iff. by rewrite Hc, (IH Hr).
Qed.

Lemma split_bar_app a b :
  has_char "|" a = false →
  split_bar (a ++ String "|" b) = a :: split_bar b.
Proof.
  induction a as [|c a IH]; simpl; [done|].
  intros [Hc Ha]%orb_false_iff. by rewrite Hc, (IH Ha).
Qed.

(** A key built by [row_key] from a canonical name and two formatted
    floats (which hold no bar) splits back into its three parts. *)
Lemma split_bar_row_key (name : option string) (dose total : string) :
  has_char "|" dose = false → has_char "|" total = false →
  split_bar (row_key (canonical_peptide <$> name) dose total) =
    [from_option id "nan" (canonical_peptide <$> name); dose; total].
Proof.
  intros Hd Ht. unfold row_key.
  change ("|" ++ dose ++ "|" ++ total) with (String "|" (dose ++ String "|" total)).
  rewrite split_bar_app.
  - by rewrite split_bar_app, split_bar_no_bar.
  - destruct name as [s|]; simpl; [apply canonical_peptide_no_bar|done].
Qed.

(** A refresh stores only keys that were stored or are visible, so the
    three-part shape of the stored keys is kept from refresh to refresh. *)
Lemma update_selection_three_parts (selected_row_keys : list string) (edited : editor) :
  Forall (λ k, length (split_bar k) = 3%nat) selected_row_keys →
  Forall (λ r, length (split_bar r.1) = 3%nat) edited →
  Forall (λ k, length (split_bar k) = 3%nat) (update_selection selected_row_keys edited).
Proof.
  rewrite !Forall_forall. intros Hold Hvis k.
  unfold update_selection. rewrite elem_of_elements, elem_of_union, elem_of_difference.
  intros [[Hk _]|Hk].
  - apply Hold. by apply elem_of_list_to_set in Hk.
  - unfold checked_keys in Hk.
    apply elem_of_list_to_set, list_elem_of_fmap in Hk as (r & -> & Hr).
    apply list_elem_of_filter in Hr as [_ Hr]. by apply Hvis.
Qed.

End RowKeys.

(** ** More on ingestion: the dose and kit-size readers *)

Section Readers.

Import PrepareData.

(** *** Characters and strings *)

Lemma digit_not_upper c : is_digit c = true → is_upper c = false.
Proof.
  unfold is_digit, is_upper, in_range.
  intros [_ H]%andb_true_iff. apply Nat.leb_le in H.
  apply andb_false_iff. left. apply Nat.leb_gt. lia.
Qed.

Lemma digit_not_blank c : is_digit c = true → Ascii.eqb c " "%char = false.
Proof.
  intros H. destruct (Ascii.eqb_spec c " "%char) as [->|]; [done|done].
Qed.

Lemma smap_app f a b : smap f (a ++ b) = smap f a ++ smap f b.
Proof. induction a as [|c a IH]; simpl; [done|by rewrite IH]. Qed.

Lemma lower_app a b : lower (a ++ b) = lower a ++ lower b.
Proof. apply smap_app. Qed.

Lemma remove_char_app c a b :
  remove_char c (a ++ b) = remove_char c a ++ remove_char c b.
Proof.
  induction a as [|d a IH]; simpl; [done|].
  destruct (Ascii.eqb d c); simpl; by rewrite IH.
Qed.

Lemma lower_digits a : all_chars is_digit a = true → lower a = a.
Proof.
  induction a as [|c a IH]; simpl; [done|].
  intros [Hc Ha]%andb_true_iff. unfold lower in *. simpl.
  rewrite (IH Ha). unfold lower_char. by rewrite (digit_not_upper c Hc).
Qed.

Lemma remove_blank_digits a :
  all_chars is_digit a = true → remove_char " "%char a = a.
Proof.
  induction a as [|c a IH]; simpl; [done|].
  intros [Hc Ha]%andb_true_iff. by rewrite (digit_not_blank c Hc), (IH Ha).
Qed.

Lemma lower_char_not_digit c : is_digit c = false → is_digit (lower_char c) = false.
Proof.
  destruct c as [[] [] [] [] [] [] [] []]; vm_compute; congruence.
Qed.

Lemma not_digit_lower a :
  all_chars not_digit a = true → all_chars not_digit (lower a) = true.
Proof.
  induction a as [|c a IH]; simpl; [done|].
  intros [Hc Ha]%andb_true_iff. unfold lower in *. simpl.
  apply negb_true_iff in Hc. unfold not_digit at 1.
  by rewrite (lower_char_not_digit c Hc), (IH Ha).
Qed.

Lemma all_chars_remove_char p c a :
  all_chars p a = true → all_chars p (remove_char c a) = true.
Proof.
  induction a as [|d a IH]; simpl; [done|].
  intros [Hd Ha]%andb_true_iff.
  destruct (Ascii.eqb d c); simpl; rewrite ?Hd; auto.
Qed.

Lemma nonempty_app_l a b : nonempty a = true → nonempty (a ++ b) = true.
Proof. by destruct a. Qed.

Lemma nonempty_app_r a b : nonempty b = true → nonempty (a ++ b) = true.
Proof. destruct a; [done|by simpl]. Qed.

(** *** The search *)

Lemma search_head here s g : here s = Some g → search here s = Some g.
Proof. intros H. destruct s; simpl; by rewrite H. Qed.

Lemma search_skip here c r : here (String c r) = None → search here (String c r) = search here r.
Proof. intros H. simpl. by rewrite H. Qed.

Lemma mg_match_here_not_digit c r : is_digit c = false → mg_match_here (String c r) = None.
Proof. intros H. unfold mg_match_here. simpl. by rewrite H. Qed.

Lemma search_mg_skip pre t :
  all_chars not_digit pre = true →
  search mg_match_here (pre ++ t) = search mg_match_here t.
Proof.
  induction pre as [|c pre IH]; simpl; [done|].
  intros [Hc Hpre]%andb_true_iff. apply negb_true_iff in Hc.
  rewrite (mg_match_here_not_digit _ _ Hc). auto.
Qed.

Lemma mg_match_here_digits ds rest :
  all_chars is_digit ds = true → nonempty ds = true →
  mg_match_here (ds ++ "mg" ++ rest) = Some ds.
Proof.
  intros Hds Hne. unfold mg_match_here.
  rewrite (span_app_all _ _ _ Hds). simpl.
  rewrite append_empty_r, Hne. done.
Qed.

Lemma pow10_0 : pow10 0 = 1%Qc.
Proof. apply Qc_is_canon. reflexivity. Qed.

Lemma of_decimal_0 m : of_decimal m 0 = of_Z m.
Proof. unfold of_decimal, of_Z. by rewrite pow10_0, Qcmult_1_r. Qed.

Lemma float_of_digits ds :
  all_chars is_digit ds = true → nonempty ds = true →
  float_of_str ds = Ok (of_Z (digits_val ds)).
Proof.
  intros Hds Hne.
  rewrite (float_of_plain_decimal ds "" ds); [|repeat split; auto].
  simpl. by rewrite append_empty_r, of_decimal_0.
Qed.

(** X3. [extract_mg] removes the blanks before it searches, so a number
    that stands before the dose is read as part of it: in a text
    [pre a b "mg" rest] where the digit runs [a] and [b] are separated
    by one blank and [pre] holds no digit, the dose is the number
    written [a b]. *)
Theorem extract_mg_joins_digits (pre a b rest : string) :
  all_chars not_digit pre = true →
  all_chars is_digit a = true → nonempty a = true →
  all_chars is_digit b = true → nonempty b = true →
  extract_mg (pre ++ a ++ " " ++ b ++ "mg" ++ rest)
    = Ok (Some (of_Z (digits_val (a ++ b)))).
Proof.
  intros Hpre Ha Hna Hb Hnb. unfold extract_mg.
  rewrite nonempty_app_r by by apply nonempty_app_l. cbn [negb].
  rewrite !lower_app, !remove_char_app.
  rewrite (lower_digits a Ha), (lower_digits b Hb).
  rewrite (remove_blank_digits a Ha), (remove_blank_digits b Hb).
  change (remove_char " " (lower " ")) with "".
  change (remove_char " " (lower "mg")) with "mg".
  rewrite search_mg_skip by by apply all_chars_remove_char, not_digit_lower.
  change ("" ++ b ++ "mg" ++ ?r) with (b ++ "mg" ++ r).
  rewrite <-append_assoc'.
  assert (all_chars is_digit (a ++ b) = true) as Hab by by rewrite all_chars_app, Ha, Hb.
  assert (nonempty (a ++ b) = true) as Hnab by by apply nonempty_app_l.
  rewrite (search_head _ _ _ (mg_match_here_digits _ _ Hab Hnab)).
  by rewrite (float_of_digits _ Hab Hnab).
Qed.

Lemma extract_mg_joins_digits_witness :
  ∃ v, extract_mg "BPC 157 5mg" = Ok (Some v) ∧ view v = VFin 1575 1.
Proof.
  exists (of_Z (digits_val ("157" ++ "5"))). split; [|reflexivity].
  apply (extract_mg_joins_digits "BPC " "157" "5" ""); reflexivity.
Defined.

(** *** The two patterns of [extract_vials] *)

Lemma vials_match_here_x r : vials_match_here (String "x" r) = None.
Proof. done. Qed.

Lemma search_xvials_covered s g :
  search xvials_match_here s = Some g → is_Some (search vials_match_here s).
Proof.
  induction s as [|c r IH]; [done|].
  destruct (xvials_match_here (String c r)) as [g'|] eqn:Hx.
  - intros _. unfold xvials_match_here in Hx.
    destruct (Ascii.eqb_spec c "x"%char) as [->|Hne].
    + rewrite (search_skip _ _ _ (vials_match_here_x r)).
      rewrite (search_head _ _ _ Hx). by eexists.
    + destruct c as [[] [] [] [] [] [] [] []]; done.
  - rewrite (search_skip _ _ _ Hx). intros Hr.
    destruct (vials_match_here (String c r)) as [g'|] eqn:Hv.
    + rewrite (search_head _ _ _ Hv). by eexists.
    + rewrite (search_skip _ _ _ Hv). by apply IH.
Qed.

(** X1. The second pattern of [extract_vials], [x(\d+)vials], is never
    the one that answers: wherever it matches, the first pattern
    [(\d+)vials] matches too, so the result is always that of the first
    search. *)
Theorem extract_vials_fallback_unreachable (text : string) :
  (∀ s g, search xvials_match_here s = Some g →
          is_Some (search vials_match_here s)) ∧
  extract_vials text =
    if nonempty text
    then int_of_digits <$> search vials_match_here (remove_char " "%char (lower text))
    else None.
Proof.
  split; [apply search_xvials_covered|].
  unfold extract_vials. destruct (nonempty text); simpl; [|done].
  destruct (search vials_match_here _) as [g|] eqn:Hv; [done|].
  destruct (search xvials_match_here _) as [g|] eqn:Hx; [|done].
  apply search_xvials_covered in Hx as [g' Hg']. congruence.
Qed.


(** *** The arithmetic of a record *)



End Readers.

(** ** More on the vendor adapters *)

Section MoreAdapters.

Import PrepareData.

(** *** Running a fallible loop *)



Lemma mapM_Ok_Forall {A B} (f : A → pyresult B) (Q : B → Prop) (l : list A) :
  Forall (λ a, ∃ b, f a = Ok b ∧ Q b) l →
  ∃ bs, mapM f l = Ok bs ∧ Forall Q bs ∧ length bs = length l.
Proof.
  induction 1 as [|a l (b & Hb & HQ) _ (bs & Hbs & IH & Hlen)].
  - by exists [].
  - exists (b :: bs). split; [|split; [by constructor|by simpl; rewrite Hlen]].
    simpl. rewrite Hb. simpl. by rewrite Hbs.
Qed.

(** *** The fields of a standardized tuple *)


(** *** [parse_uther] *)




(** *** The text adapter *)






(** *** Carrying the name forward *)

Lemma carry_row_acc vendor file (c : cell) (acc : list raw_tuple) (r : row) :
  carry_row vendor file (c, acc) r =
    ((carry_row vendor file (c, []) r).1,
     (acc ++ (carry_row vendor file (c, []) r).2)%list).
Proof.
  unfold carry_row. destruct (skip_row r); simpl; [by rewrite app_nil_r|].
  destruct (_ || _); simpl; [by rewrite app_nil_r|done].
Qed.

Lemma foldl_carry_acc vendor file (rs : list row) (c : cell) (acc : list raw_tuple) :
  foldl (carry_row vendor file) (c, acc) rs =
    ((foldl (carry_row vendor file) (c, []) rs).1,
     (acc ++ (foldl (carry_row vendor file) (c, []) rs).2)%list).
Proof.
  revert c acc. induction rs as [|r rs IH]; intros c acc; cbn [foldl].
  - by rewrite app_nil_r.
  - rewrite (carry_row_acc _ _ c acc r).
    destruct (carry_row vendor file (c, []) r) as [c' acc'] eqn:Hr. cbn [fst snd].
    rewrite (IH c' (acc ++ acc')%list), (IH c' acc'). cbn [fst snd]. by rewrite app_assoc.
Qed.

Lemma carry_row_unnamed vendor file (n : cell) (r : row) :
  truthy_cell n = true → unnamed_priced r →
  carry_row vendor file (n, []) r = (n, [carried vendor file n r]).
Proof.
  intros Hn (Hskip & Hname & Hprice). unfold carry_row. rewrite Hskip.
  unfold cell_at in Hname.
  assert (match r !! 1%nat with
          | Some c => if truthy_cell c then c else n
          | None => n
          end = n) as ->.
  { destruct (r !! 1%nat) as [c|]; [|done]. by rewrite Hname. }
  by rewrite Hn, Hprice.
Qed.

Lemma foldl_carry_unnamed vendor file (n : cell) (rows : list row) :
  truthy_cell n = true → Forall unnamed_priced rows →
  foldl (carry_row vendor file) (n, []) rows = (n, carried vendor file n <$> rows).
Proof.
  intros Hn. induction 1 as [|r rows Hr _ IH]; [done|].
  cbn [foldl]. rewrite (carry_row_unnamed _ _ _ _ Hn Hr), foldl_carry_acc, IH. done.
Qed.

Lemma carry_row_named vendor file (st : cell * list raw_tuple) (r : row) (n : cell) :
  skip_row r = false → r !! 1%nat = Some n → truthy_cell n = true →
  (carry_row vendor file st r).1 = n.
Proof.
  intros Hskip Hn Htr. destruct st as [c acc]. unfold carry_row, cell in *.
  rewrite Hskip, Hn, Htr. by destruct (_ || _).
Qed.

(** X8. The adapters that carry the product name forward fill it in
    from the closest named row above: after a row with a first cell and
    the name [n], every following row that has a first cell and a
    price but no name of its own is emitted under [n]. *)
Theorem carry_rows_forward_fill vendor file (pre : list row) (r0 : row) (n : cell)
    (rows : list row) :
  skip_row r0 = false → r0 !! 1%nat = Some n → truthy_cell n = true →
  Forall unnamed_priced rows →
  carry_rows vendor file (pre ++ r0 :: rows) =
    (carry_rows vendor file (pre ++ [r0]) ++ (carried vendor file n <$> rows))%list.
Proof.
  intros Hskip Hn Htr Hrows. unfold carry_rows.
  rewrite (cons_middle r0 pre rows), app_assoc, (foldl_app _ (pre ++ [r0])).
  destruct (foldl (carry_row vendor file) (None, []) (pre ++ [r0])) as [c acc] eqn:Hst.
  assert (c = n) as ->.
  { rewrite foldl_app in Hst. cbn [foldl] in Hst.
    pose proof (carry_row_named vendor file
                  (foldl (carry_row vendor file) (None, []) pre) r0 n Hskip Hn Htr) as H.
    by rewrite Hst in H. }
  rewrite foldl_carry_acc, (foldl_carry_unnamed _ _ _ _ Htr Hrows). done.
Qed.

Lemma carry_rows_forward_fill_witness :
  parse_zj_table zj_sample =
    (carry_rows "ZJ" zj_file (take 1 (drop 1 zj_sample))
     ++ (carried "ZJ" zj_file (Some "BPC 157") <$> drop 2 zj_sample))%list ∧
  raw_name <$> parse_zj_table zj_sample =
    [Some "BPC 157"; Some "BPC 157"; Some "BPC 157"].
Proof.
  split; [|reflexivity].
  apply (carry_rows_forward_fill "ZJ" zj_file []
           [Some "Z1"; Some "BPC 157"; Some "5mg*10vials"; Some "40"]
           (Some "BPC 157")); [reflexivity..|].
  repeat constructor.
Defined.

(** *** Header rows *)

Lemma find_index_none (p : row → bool) (t : table) :
  Forall (λ r, p r = false) t → find_index p t = None.
Proof. induction 1 as [|r t Hr _ IH]; simpl; [done|]. by rewrite Hr, IH. Qed.

Lemma find_index_first (p : row → bool) (pre : table) (h : row) (rest : table) :
  Forall (λ r, p r = false) pre → p h = true →
  find_index p (pre ++ h :: rest)%list = Some (length pre).
Proof.
  intros Hpre Hh. induction Hpre as [|r t Hr _ IH]; simpl; [by rewrite Hh|].
  by rewrite Hr, IH.
Qed.

Lemma drop_past (pre : table) (h : row) (rest : table) :
  drop (S (length pre)) (pre ++ h :: rest)%list = rest.
Proof. induction pre as [|r pre IH]; simpl; [by rewrite drop_0|done]. Qed.

(** X9. How the header row is used.  [parse_hyb] reads nothing from a
    table without a [Code] header, and otherwise only the rows after
    the first such header; [parse_zj] reads a table without an [SKU]
    header from its first row, and otherwise the rows after the first
    such header. *)
Theorem header_rows (pre : table) (h : row) (rest : table) :
  (Forall (λ r, hyb_header r = false) pre → parse_hyb_table pre = []) ∧
  (Forall (λ r, hyb_header r = false) pre → hyb_header h = true →
     parse_hyb_table (pre ++ h :: rest)%list = concat (parse_hyb_row <$> rest)) ∧
  (Forall (λ r, zj_header r = false) pre →
     parse_zj_table pre = carry_rows "ZJ" zj_file pre) ∧
  (Forall (λ r, zj_header r = false) pre → zj_header h = true →
     parse_zj_table (pre ++ h :: rest)%list = carry_rows "ZJ" zj_file rest).
Proof.
  unfold parse_hyb_table, parse_zj_table.
  set (hyb := first_cell_is (λ s, String.eqb (strip s) "Code")).
  set (zj := first_cell_is (contains "SKU")).
  repeat split.
  - intros Hpre. by rewrite (find_index_none hyb pre Hpre).
  - intros Hpre Hh. by rewrite (find_index_first hyb pre h rest Hpre Hh), drop_past.
  - intros Hpre. by rewrite (find_index_none zj pre Hpre).
  - intros Hpre Hh. by rewrite (find_index_first zj pre h rest Hpre Hh), drop_past.
Qed.

End MoreAdapters.

(** ** The key column of the master table *)

Section MasterKey.

Import App Master.

(** *** Stripping *)

Lemma drop_while_suffix p s : ∃ a, s = a ++ drop_while p s.
Proof.
  induction s as [|c r [a IH]]; [by exists ""|].
  simpl. destruct (p c); [|by exists ""].
  exists (String c a). simpl. by rewrite <-IH.
Qed.

Lemma strip_with_middle p s : ∃ a b, s = a ++ strip_with p s ++ b.
Proof.
  unfold strip_with.
  destruct (drop_while_suffix p s) as [a Ha].
  destruct (drop_while_suffix p (srev (drop_while p s))) as [a' Ha'].
  exists a, (srev a'). rewrite <-srev_append, <-Ha', srev_involutive. done.
Qed.

Lemma drop_while_starts p s : starts_with p (drop_while p s) = false.
Proof.
  induction s as [|c r IH]; [done|]. simpl.
  destruct (p c) eqn:Hc; [done|]. simpl. done.
Qed.

Lemma drop_while_fixed p s : starts_with p s = false → drop_while p s = s.
Proof. destruct s as [|c r]; [done|]. simpl. by intros ->. Qed.

Lemma starts_with_app p a b :
  nonempty a = true → starts_with p (a ++ b) = starts_with p a.
Proof. by destruct a. Qed.

Lemma srev_nonempty s : nonempty s = true → nonempty (srev s) = true.
Proof.
  destruct s as [|c r]; [done|]. intros _. rewrite srev_cons.
  by apply nonempty_app_r.
Qed.

Lemma drop_while_keeps_end p s :
  starts_with p (srev s) = false → starts_with p (srev (drop_while p s)) = false.
Proof.
  intros H. destruct (drop_while_suffix p s) as [a Ha].
  destruct (drop_while p s) as [|c r] eqn:Hd; [done|].
  rewrite Ha, srev_append, starts_with_app in H; [done|].
  by apply srev_nonempty.
Qed.

Lemma strip_with_ends p s :
  starts_with p (strip_with p s) = false ∧
  starts_with p (srev (strip_with p s)) = false.
Proof.
  unfold strip_with. rewrite srev_involutive. split; [|apply drop_while_starts].
  apply drop_while_keeps_end. rewrite srev_involutive. apply drop_while_starts.
Qed.

Lemma strip_with_fixed p s :
  starts_with p s = false → starts_with p (srev s) = false → strip_with p s = s.
Proof.
  intros Hs Hr. unfold strip_with.
  by rewrite (drop_while_fixed p s Hs), (drop_while_fixed p _ Hr), srev_involutive.
Qed.

Lemma strip_with_idempotent p s : strip_with p (strip_with p s) = strip_with p s.
Proof. destruct (strip_with_ends p s). by apply strip_with_fixed. Qed.

(** *** Collapsing runs *)

Lemma single_blanks_cons c s :
  single_blanks (String c s) =
    negb (Ascii.eqb c " "%char && starts_with (λ d, Ascii.eqb d " "%char) s)
    && single_blanks s.
Proof. destruct s as [|d r]; simpl; [by rewrite andb_false_r|done]. Qed.

Lemma single_blanks_tail c s : single_blanks (String c s) = true → single_blanks s = true.
Proof. rewrite single_blanks_cons. by intros [_ ?]%andb_true_iff. Qed.

Lemma single_blanks_app_r a b : single_blanks (a ++ b) = true → single_blanks b = true.
Proof.
  induction a as [|c a IH]; [done|]. simpl. intros H.
  by apply IH, (single_blanks_tail c).
Qed.

Lemma single_blanks_app_l a b : single_blanks (a ++ b) = true → single_blanks a = true.
Proof.
  induction a as [|c a IH]; [done|].
  change (String c a ++ b) with (String c (a ++ b)).
  rewrite !single_blanks_cons. intros [H1 H2]%andb_true_iff.
  rewrite (IH H2), andb_true_r. destruct a as [|d a']; [by rewrite andb_false_r|exact H1].
Qed.

Lemma collapse_runs_single p in_run s :
  p " "%char = true →
  single_blanks (collapse_runs p in_run s) = true ∧
  (in_run = true → starts_with (λ c, Ascii.eqb c " "%char) (collapse_runs p in_run s) = false).
Proof.
  intros Hsp. revert in_run. induction s as [|c r IH]; intros in_run; [done|].
  cbn [collapse_runs]. destruct (p c) eqn:Hc.
  - destruct in_run; [apply IH|]. split; [|done].
    destruct (IH true) as [H1 H2]. specialize (H2 eq_refl).
    by rewrite single_blanks_cons, H2, H1.
  - assert (Ascii.eqb c " "%char = false) as Hne.
    { destruct (Ascii.eqb_spec c " "%char) as [->|]; [congruence|done]. }
    split; [|by intros _; simpl].
    destruct (IH false) as [H1 _].
    by rewrite single_blanks_cons, Hne, H1.
Qed.

Lemma collapse_runs_fixed p in_run s :
  all_chars (λ c, negb (p c) || Ascii.eqb c " "%char) s = true →
  single_blanks s = true →
  (in_run = true → starts_with p s = false) →
  collapse_runs p in_run s = s.
Proof.
  revert in_run. induction s as [|c r IH]; intros in_run Hall Hsb Hrun; [done|].
  simpl in Hall. apply andb_true_iff in Hall as [Hc Hall].
  rewrite single_blanks_cons in Hsb. apply andb_true_iff in Hsb as [Hcd Hsb].
  cbn [collapse_runs]. destruct (p c) eqn:Hpc.
  - simpl in Hc. apply Ascii.eqb_eq in Hc as ->.
    destruct in_run; [by specialize (Hrun eq_refl); simpl in Hrun; congruence|].
    f_equal. apply IH; [done|done|].
    intros _. destruct r as [|d r']; [done|].
    simpl in Hcd. apply negb_true_iff in Hcd. simpl in Hall.
    apply andb_true_iff in Hall as [Hd' _]. simpl.
    destruct (p d); [|done]. simpl in Hd'. congruence.
  - f_equal. by apply IH.
Qed.

(** *** The alphabet of a key *)

Lemma key_char_outside c : outside_key_class c = false → key_char c = true.
Proof.
  unfold outside_key_class, key_char. intros H%negb_false_iff. by rewrite H.
Qed.

Lemma key_char_or_blank c :
  key_char c = true → negb (outside_key_class c) || Ascii.eqb c " "%char = true.
Proof. unfold outside_key_class, key_char. by rewrite negb_involutive. Qed.

Lemma key_char_space c :
  key_char c = true → negb (is_space c) || Ascii.eqb c " "%char = true.
Proof. destruct c as [[] [] [] [] [] [] [] []]; vm_compute; congruence. Qed.

Lemma key_char_upper c : key_char c = true → upper_char c = c.
Proof. destruct c as [[] [] [] [] [] [] [] []]; vm_compute; congruence. Qed.

Lemma upper_key_chars s : all_chars key_char s = true → upper s = s.
Proof.
  induction s as [|c r IH]; [done|]. simpl.
  intros [Hc Hr]%andb_true_iff. unfold upper in *. simpl.
  by rewrite (key_char_upper c Hc), (IH Hr).
Qed.

Lemma starts_with_blank_space s :
  starts_with is_space s = false → starts_with (λ c, Ascii.eqb c " "%char) s = false.
Proof.
  destruct s as [|c r]; [done|]. simpl. intros H.
  destruct (Ascii.eqb_spec c " "%char) as [->|]; [done|done].
Qed.

(** The last two steps of both clean-ups, on a text [x] of key
    characters without doubled blanks: the white-space pass changes
    nothing, and stripping leaves a text of the same kind with no white
    space at either end. *)
Lemma collapsed_shape (x : string) :
  all_chars key_char x = true → single_blanks x = true →
  all_chars key_char (strip (collapse_runs is_space false x)) = true ∧
  single_blanks (strip (collapse_runs is_space false x)) = true ∧
  starts_with is_space (strip (collapse_runs is_space false x)) = false ∧
  starts_with is_space (srev (strip (collapse_runs is_space false x))) = false.
Proof.
  intros Hall Hsb.
  rewrite (collapse_runs_fixed is_space false x); [| |done|done].
  - destruct (strip_with_middle is_space x) as (a & b & Hx).
    destruct (strip_with_ends is_space x) as [H1 H2].
    fold (strip x) in *. split; [by apply all_chars_strip_with|].
    split; [|done].
    rewrite Hx in Hsb. by apply single_blanks_app_r, single_blanks_app_l in Hsb.
  - eapply all_chars_impl; [|exact Hall]. apply key_char_space.
Qed.

(** What a key looks like: its characters, no doubled blank, and no
    white space at either end. *)
Lemma peptide_key_shape (s : string) :
  all_chars key_char (peptide_key s) = true ∧
  single_blanks (peptide_key s) = true ∧
  starts_with is_space (peptide_key s) = false ∧
  starts_with is_space (srev (peptide_key s)) = false.
Proof.
  unfold peptide_key. apply collapsed_shape.
  - apply all_chars_collapse_runs; [apply key_char_outside|done].
  - by apply collapse_runs_single.
Qed.

(** X7. [peptide_key] is a normal form: a key holds only capitals,
    digits, hyphens and blanks, has no doubled blank and no white space
    at either end, and computing the key of a key gives the key
    back. *)
Theorem peptide_key_idempotent (s : string) :
  peptide_key (peptide_key s) = peptide_key s ∧
  all_chars key_char (peptide_key s) = true ∧
  single_blanks (peptide_key s) = true ∧
  strip (peptide_key s) = peptide_key s.
Proof.
  destruct (peptide_key_shape s) as (Hall & Hsb & Hhead & Hlast).
  assert (strip (peptide_key s) = peptide_key s) as Hstrip
    by by apply strip_with_fixed.
  split; [|done].
  set (t := peptide_key s) in *. unfold peptide_key at 1.
  rewrite (upper_key_chars t Hall).
  rewrite (collapse_runs_fixed outside_key_class false t); [| |done|done].
  - rewrite (collapse_runs_fixed is_space false t); [done| |done|done].
    eapply all_chars_impl; [|exact Hall]. apply key_char_space.
  - eapply all_chars_impl; [|exact Hall]. apply key_char_or_blank.
Qed.

End MasterKey.

(** ** More on the canonical name *)

Section Resolver.

Import App.

(** *** Letter case *)

Lemma upper_char_lower c : upper_char (lower_char c) = upper_char c.
Proof. destruct c as [[] [] [] [] [] [] [] []]; reflexivity. Qed.

Lemma upper_char_upper c : upper_char (upper_char c) = upper_char c.
Proof. destruct c as [[] [] [] [] [] [] [] []]; reflexivity. Qed.

Lemma upper_lower s : upper (lower s) = upper s.
Proof.
  unfold upper, lower. induction s as [|c r IH]; [done|].
  simpl. by rewrite upper_char_lower, IH.
Qed.

Lemma upper_upper s : upper (upper s) = upper s.
Proof.
  unfold upper. induction s as [|c r IH]; [done|].
  simpl. by rewrite upper_char_upper, IH.
Qed.

Lemma canonical_peptide_of_upper s s' :
  upper s = upper s' → canonical_peptide s = canonical_peptide s'.
Proof. intros H. unfold canonical_peptide, tokencleanup. by rewrite H. Qed.

(** X11. The resolver ignores letter case: a product name, the same
    name in small letters and the same name in capitals resolve to the
    same canonical name. *)
Theorem canonical_peptide_ignores_case (s : string) :
  canonical_peptide (lower s) = canonical_peptide s ∧
  canonical_peptide (upper s) = canonical_peptide s.
Proof.
  split; apply canonical_peptide_of_upper; [apply upper_lower|apply upper_upper].
Qed.

(** *** A leading word survives the clean-up *)

Lemma strip_prefix_app w r : strip_prefix w (w ++ r) = Some r.
Proof.
  induction w as [|c w IH]; [done|]. simpl. by rewrite Ascii.eqb_refl.
Qed.

Lemma strip_prefix_inv w s r : strip_prefix w s = Some r → s = w ++ r.
Proof.
  revert s. induction w as [|c w IH]; intros s; simpl; [by intros [= ->]|].
  destruct s as [|d s']; [done|].
  destruct (Ascii.eqb_spec c d) as [->|]; [|done].
  intros H. by rewrite (IH _ H).
Qed.

Lemma startswith_app w r : startswith w (w ++ r) = true.
Proof. unfold startswith. by rewrite strip_prefix_app. Qed.

Lemma startswith_inv w s : startswith w s = true → ∃ r, s = w ++ r.
Proof.
  unfold startswith. destruct (strip_prefix w s) as [r|] eqn:H; [|done].
  intros _. exists r. by apply strip_prefix_inv.
Qed.

Lemma startswith_head a p b q s :
  startswith (String a p) s = true → startswith (String b q) s = true → a = b.
Proof.
  intros [r ->]%startswith_inv [r' H]%startswith_inv. by injection H.
Qed.

Lemma upper_not_digit c : is_upper c = true → is_digit c = false.
Proof. destruct c as [[] [] [] [] [] [] [] []]; vm_compute; congruence. Qed.

Lemma upper_no_dash c :
  is_upper c = true →
  (if Ascii.eqb c "-"%char || Ascii.eqb c "_"%char then " "%char else c) = c.
Proof. destruct c as [[] [] [] [] [] [] [] []]; vm_compute; congruence. Qed.

Lemma upper_is_word c : is_upper c = true → negb (is_word c) = false.
Proof. destruct c as [[] [] [] [] [] [] [] []]; vm_compute; congruence. Qed.

Lemma upper_not_space c : is_upper c = true → is_space c = false.
Proof. destruct c as [[] [] [] [] [] [] [] []]; vm_compute; congruence. Qed.

Lemma dose_token_here_not_digit c r :
  is_digit c = false → dose_token_here (String c r) = None.
Proof. intros H. unfold dose_token_here. simpl. by rewrite H. Qed.

Lemma remove_dose_tokens_prefix w r prev :
  all_chars is_upper w = true →
  ∃ r', remove_dose_tokens 0 prev (w ++ r) = w ++ r'.
Proof.
  revert prev. induction w as [|c w IH]; intros prev; [by eexists|].
  simpl. intros [Hc Hw]%andb_true_iff.
  rewrite (dose_token_here_not_digit c _ (upper_not_digit c Hc)).
  destruct (IH (Some c) Hw) as [r' Hr'].
  exists r'. destruct (boundary_before prev); by rewrite Hr'.
Qed.

Lemma dashes_to_spaces_prefix w r :
  all_chars is_upper w = true →
  dashes_to_spaces (w ++ r) = w ++ dashes_to_spaces r.
Proof.
  unfold dashes_to_spaces. induction w as [|c w IH]; [done|].
  simpl. intros [Hc Hw]%andb_true_iff. by rewrite (upper_no_dash c Hc), (IH Hw).
Qed.

Lemma collapse_runs_prefix p w r :
  all_chars (λ c, negb (p c)) w = true →
  collapse_runs p false (w ++ r) = w ++ collapse_runs p false r.
Proof.
  induction w as [|c w IH]; [done|].
  simpl. intros [Hc Hw]%andb_true_iff. apply negb_true_iff in Hc.
  by rewrite Hc, (IH Hw).
Qed.

Lemma drop_while_app_keep p x y :
  all_chars (λ c, negb (p c)) y = true → nonempty y = true →
  ∃ x', drop_while p (x ++ y) = x' ++ y.
Proof.
  intros Hy Hne. induction x as [|c x [x' IH]].
  - exists "". simpl. apply drop_while_fixed.
    destruct y as [|d y']; [done|]. simpl in *.
    apply andb_true_iff in Hy as [Hd _]. by apply negb_true_iff in Hd.
  - simpl. destruct (p c); [by exists x'|by exists (String c x)].
Qed.

Lemma strip_prefix_kept w r :
  all_chars not_space w = true → nonempty w = true →
  ∃ r', strip (w ++ r) = w ++ r'.
Proof.
  intros Hw Hne. unfold strip, strip_with.
  rewrite (drop_while_fixed is_space (w ++ r)).
  - rewrite srev_append.
    destruct (drop_while_app_keep is_space (srev r) (srev w)) as [x' ->].
    + by rewrite all_chars_srev.
    + by apply srev_nonempty.
    + exists (srev x'). by rewrite srev_append, srev_involutive.
  - destruct w as [|c w']; [done|]. simpl in *.
    apply andb_true_iff in Hw as [Hc _]. by apply negb_true_iff in Hc.
Qed.

(** A leading word of capitals is still there after the clean-up. *)
Lemma tokencleanup_prefix w s :
  all_chars is_upper w = true → nonempty w = true →
  startswith w (upper s) = true → startswith w (tokencleanup s) = true.
Proof.
  intros Hw Hne [r Hr]%startswith_inv. unfold tokencleanup. rewrite Hr.
  destruct (remove_dose_tokens_prefix w r None Hw) as [r1 ->].
  rewrite (dashes_to_spaces_prefix w r1 Hw).
  rewrite collapse_runs_prefix
    by (eapply all_chars_impl; [|exact Hw]; intros c Hc; by rewrite upper_is_word).
  rewrite collapse_runs_prefix
    by (eapply all_chars_impl; [|exact Hw]; intros c Hc; by rewrite upper_not_space).
  destruct (strip_prefix_kept w
              (collapse_runs is_space false
                 (collapse_runs (λ c, negb (is_word c)) false (dashes_to_spaces r1))))
    as [r' ->]; [|done|apply startswith_app].
  eapply all_chars_impl; [|exact Hw]. intros c Hc.
  unfold not_space. by rewrite upper_not_space.
Qed.

Lemma base_rules_reta c :
  startswith "RETA" c = true → apply_rules base_rules c c = "RETATRUTIDE".
Proof.
  intros H. unfold apply_rules, base_rules. cbn [foldl fst snd]. rewrite H.
  destruct (startswith "TIRZE" c) eqn:Ht;
    [by pose proof (startswith_head _ _ _ _ _ H Ht)|].
  destruct (startswith "SEMA" c) eqn:Hs;
    [by pose proof (startswith_head _ _ _ _ _ H Hs)|done].
Qed.

Lemma base_rules_tirze c :
  startswith "TIRZE" c = true → apply_rules base_rules c c = "TIRZEPATIDE".
Proof.
  intros H. unfold apply_rules, base_rules. cbn [foldl fst snd]. rewrite H.
  destruct (startswith "SEMA" c) eqn:Hs;
    [by pose proof (startswith_head _ _ _ _ _ H Hs)|done].
Qed.

Lemma base_rules_sema c :
  startswith "SEMA" c = true → apply_rules base_rules c c = "SEMAGLUTIDE".
Proof. intros H. unfold apply_rules, base_rules. cbn [foldl fst snd]. by rewrite H. Qed.

(** X12. The three base names win over everything else: a product
    name that begins, in any letter case, with RETA, TIRZE or SEMA
    resolves to RETATRUTIDE, TIRZEPATIDE or SEMAGLUTIDE, whatever
    follows, since the alias rules read the name only after the base
    rules have replaced it. *)
Theorem base_names_win (s : string) :
  (startswith "RETA" (upper s) = true → canonical_peptide s = "RETATRUTIDE") ∧
  (startswith "TIRZE" (upper s) = true → canonical_peptide s = "TIRZEPATIDE") ∧
  (startswith "SEMA" (upper s) = true → canonical_peptide s = "SEMAGLUTIDE").
Proof.
  unfold canonical_peptide. repeat split; intros H.
  - apply (tokencleanup_prefix "RETA") in H; [|done..].
    by rewrite (base_rules_reta _ H).
  - apply (tokencleanup_prefix "TIRZE") in H; [|done..].
    by rewrite (base_rules_tirze _ H).
  - apply (tokencleanup_prefix "SEMA") in H; [|done..].
    by rewrite (base_rules_sema _ H).
Qed.

(** *** The alphabet of a canonical name *)

Lemma is_lower_upper_char c : negb (is_lower (upper_char c)) = true.
Proof. destruct c as [[] [] [] [] [] [] [] []]; reflexivity. Qed.

Lemma all_chars_smap q f s :
  (∀ c, q (f c) = true) → all_chars q (smap f s) = true.
Proof. intros H. induction s as [|c r IH]; simpl; [done|by rewrite H, IH]. Qed.

Lemma all_chars_smap_from q0 q f s :
  (∀ c, q0 c = true → q (f c) = true) →
  all_chars q0 s = true → all_chars q (smap f s) = true.
Proof.
  intros H. induction s as [|c r IH]; simpl; [done|].
  intros [Hc Hr]%andb_true_iff. by rewrite (H c Hc), (IH Hr).
Qed.

Lemma all_chars_remove_dose_tokens q skip prev s :
  all_chars q s = true → all_chars q (remove_dose_tokens skip prev s) = true.
Proof.
  revert skip prev. induction s as [|c r IH]; intros skip prev; [done|].
  simpl. intros [Hc Hr]%andb_true_iff.
  destruct skip as [|k]; [|by apply IH].
  destruct (if boundary_before prev then _ else _); [by apply IH|].
  simpl. by rewrite Hc, IH.
Qed.

Lemma all_chars_collapse_runs_from (q0 q p : ascii → bool) in_run s :
  (∀ c, q0 c = true → p c = false → q c = true) → q " "%char = true →
  all_chars q0 s = true → all_chars q (collapse_runs p in_run s) = true.
Proof.
  intros Hq Hsp. revert in_run.
  induction s as [|c r IH]; intros in_run; simpl; [done|].
  intros [Hc Hr]%andb_true_iff. destruct (p c) eqn:Hpc.
  - destruct in_run; simpl; rewrite ?Hsp; by apply IH.
  - simpl. by rewrite (Hq c Hc Hpc), IH.
Qed.

Lemma no_small_dash c :
  negb (is_lower c) = true →
  (λ d, negb (is_lower d) && negb (Ascii.eqb d "_"%char))
    (if Ascii.eqb c "-"%char || Ascii.eqb c "_"%char then " "%char else c) = true.
Proof. destruct c as [[] [] [] [] [] [] [] []]; vm_compute; congruence. Qed.

Lemma word_key_char c :
  negb (is_lower c) && negb (Ascii.eqb c "_"%char) = true →
  negb (is_word c) = false → key_char c = true.
Proof. destruct c as [[] [] [] [] [] [] [] []]; vm_compute; congruence. Qed.

Lemma tokencleanup_shape (s : string) :
  all_chars key_char (tokencleanup s) = true ∧
  single_blanks (tokencleanup s) = true ∧
  starts_with is_space (tokencleanup s) = false ∧
  starts_with is_space (srev (tokencleanup s)) = false.
Proof.
  unfold tokencleanup. apply collapsed_shape; [|by apply collapse_runs_single].
  apply (all_chars_collapse_runs_from
           (λ d, negb (is_lower d) && negb (Ascii.eqb d "_"%char)));
    [apply word_key_char|done|].
  unfold dashes_to_spaces.
  apply (all_chars_smap_from (λ d, negb (is_lower d))); [apply no_small_dash|].
  apply all_chars_remove_dose_tokens. unfold upper.
  apply all_chars_smap, is_lower_upper_char.
Qed.

(** X23. A canonical name is tidy: it holds only capitals, digits,
    hyphens and blanks (so never the bar that separates the parts of a
    row key), no doubled blank, and no white space at either end. *)
Theorem canonical_peptide_tidy (s : string) :
  all_chars key_char (canonical_peptide s) = true ∧
  single_blanks (canonical_peptide s) = true ∧
  strip (canonical_peptide s) = canonical_peptide s ∧
  has_char "|" (canonical_peptide s) = false.
Proof.
  assert (all_chars key_char (canonical_peptide s) = true ∧
          single_blanks (canonical_peptide s) = true ∧
          strip (canonical_peptide s) = canonical_peptide s) as (Hall & Hsb & Hstrip).
  { destruct (canonical_peptide_cases s) as [->|Hin].
    - destruct (tokencleanup_shape s) as (? & ? & ? & ?).
      repeat split; [done..|]. by apply strip_with_fixed.
    - assert (forallb (λ l, all_chars key_char l && single_blanks l
                            && String.eqb (strip l) l) alias_literals = true)
        as Hlits by (vm_compute; reflexivity).
      rewrite forallb_forall in Hlits. apply list_elem_of_In, Hlits in Hin.
      apply andb_true_iff in Hin as [[? ?]%andb_true_iff ?%String.eqb_eq]. done. }
  repeat split; [done..|].
  by apply (has_char_all_chars key_char).
Qed.

End Resolver.

(** ** More on the stored selection *)

Section StoredKeys.

Import App.

(** X13. A row key decodes to what it was built from: the key of a
    canonical name and two formatted numbers splits into exactly these
    three parts, so decoding it never raises and gives the name back,
    with each number read by [float()] or missing. *)
Theorem row_key_round_trip (name : option string) (dose total : string) :
  has_char "|" dose = false → has_char "|" total = false →
  decode_key (row_key (canonical_peptide <$> name) dose total) =
    Ok (from_option id "nan" (canonical_peptide <$> name),
        float_or_missing dose, float_or_missing total).
Proof.
  intros Hd Ht. apply decode_key_three_parts. by apply split_bar_row_key.
Qed.

Lemma row_key_round_trip_witness :
  ∃ d t, decode_key (row_key (canonical_peptide <$> Some "bpc-157 5mg") "5.0" "50.0") =
           Ok ("BPC 157", Some d, Some t) ∧
         view d = VFin 5 1 ∧ view t = VFin 50 1.
Proof.
  eexists _, _. split.
  - rewrite (row_key_round_trip (Some "bpc-157 5mg") "5.0" "50.0"); reflexivity.
  - split; reflexivity.
Defined.

Lemma table_key_three_parts k : table_key k → length (split_bar k) = 3%nat.
Proof.
  intros (name & dose & total & Hd & Ht & ->). by rewrite split_bar_row_key.
Qed.

Lemma stored_keys_three_parts ks :
  stored_keys ks → Forall (λ k, length (split_bar k) = 3%nat) ks.
Proof.
  induction 1 as [|ks edited _ IH Hed]; [constructor|].
  apply update_selection_three_parts; [done|].
  eapply Forall_impl; [exact Hed|]. intros r. apply table_key_three_parts.
Qed.

(** X14. The stored selection always decodes.  Starting from the empty
    list of a new session, and as long as the editor shows keys built
    by the table, every list that a refresh stores holds only keys of
    three parts, so the decoding loop never aborts and returns one
    triple for each stored key. *)
Theorem stored_keys_decode (ks : list string) :
  stored_keys ks →
  Forall (λ k, length (split_bar k) = 3%nat) ks ∧
  ∃ decoded, decode_keys ks = Ok decoded ∧ length decoded = length ks.
Proof.
  intros Hks%stored_keys_three_parts. split; [done|].
  destruct (mapM_Ok_Forall decode_key (λ _, True) ks) as (decoded & ? & _ & ?);
    [|by exists decoded].
  eapply Forall_impl; [exact Hks|]. intros k Hk. simpl in Hk.
  destruct (split_bar k) as [|pep [|dose_str [|total_str [|]]]] eqn:Hsplit; try done.
  rewrite (decode_key_three_parts _ _ _ _ Hsplit). by eexists.
Qed.

Lemma stored_keys_decode_witness :
  ∃ decoded,
    decode_keys (update_selection []
                   [(row_key (canonical_peptide <$> Some "Reta 10mg") "10.0" "100.0", true);
                    (row_key (canonical_peptide <$> None) "5.0" "50.0", false)])
      = Ok decoded ∧ length decoded = 1%nat.
Proof.
  refine (proj2 (stored_keys_decode _ (stored_refresh [] _ stored_new _))).
  repeat constructor.
  - by exists (Some "Reta 10mg"), "10.0", "100.0".
  - by exists None, "5.0", "50.0".
Defined.


End StoredKeys.

(** ** More on the markers *)

Section Markers.

Import App.

Lemma mask_lookup (k : nat) (cells : list pyfloat) (i : nat) (x : pyfloat) :
  cells !! i = Some x →
  rank_eq k (rank_min cells) !! i =
    Some (bool_decide ((if notna x then Some (S (count_below x cells)) else None)
                       = Some k)).
Proof.
  intros Hi. unfold rank_eq. by rewrite list_lookup_fmap, (rank_min_lookup _ _ _ Hi).
Qed.

Lemma filter_length_0 {B} (P : B → Prop) `{∀ x, Decision (P x)} (l : list B) :
  length (filter P l) = 0%nat ↔ ∀ y, y ∈ l → ¬ P y.
Proof.
  induction l as [|z l IH]; [by split; [intros _ y ?%elem_of_nil|]|].
  rewrite filter_cons. destruct (decide (P z)) as [Hz|Hz]; simpl.
  - split; [done|]. intros Hall. destruct (Hall z); [by left|done].
  - rewrite IH. split.
    + intros Hall y [->|?]%elem_of_cons; auto.
    + intros Hall y Hy. apply Hall. by right.
Qed.

Lemma filter_length_pos {B} (P : B → Prop) `{∀ x, Decision (P x)} (l : list B) (a : B) :
  a ∈ l → P a → (1 ≤ length (filter P l))%nat.
Proof.
  intros Ha HP. assert (a ∈ filter P l) as Hin by by apply list_elem_of_filter.
  destruct (filter P l); [by apply elem_of_nil in Hin|simpl; lia].
Qed.

Lemma filter_length_two {B} (P : B → Prop) `{∀ x, Decision (P x)} (l : list B)
    (j k : nat) (a b : B) :
  (j < k)%nat → l !! j = Some a → l !! k = Some b → P a → P b →
  (2 ≤ length (filter P l))%nat.
Proof.
  revert j k. induction l as [|z l IH]; intros j k Hjk Hj Hk Ha Hb; [done|].
  destruct k as [|k']; [lia|]. simpl in Hk.
  rewrite filter_cons. destruct j as [|j'].
  - injection Hj as ->. rewrite decide_True by done. simpl.
    pose proof (filter_length_pos P l b (list_elem_of_lookup_2 _ _ _ Hk) Hb). lia.
  - simpl in Hj. assert (2 ≤ length (filter P l))%nat as Hl
      by (apply (IH j' k'); [lia|done..]).
    destruct (decide (P z)); simpl; lia.
Qed.

(** X16. The best marker goes to the cheapest: the cell of a vendor is
    in the best mask exactly when it has a price per mg and no cell of
    the row has a lower one. *)
Theorem best_mask_cheapest (cells : list pyfloat) (i : nat) (x : pyfloat) :
  cells !! i = Some x →
  (best_mask cells !! i = Some true ↔
     notna x = true ∧ ∀ y, y ∈ cells → flt y x = false).
Proof.
  intros Hi. unfold best_mask. rewrite (mask_lookup 1 _ _ _ Hi).
  destruct (notna x); [|split; [by intros [= ?%bool_decide_eq_true]|by intros [? _]]].
  split.
  - intros [= Hr%bool_decide_eq_true]. split; [done|].
    injection Hr as Hr. unfold count_below in Hr.
    pose proof (proj1 (filter_length_0 _ _) Hr) as Hnone.
    intros y Hy. apply not_true_is_false, (Hnone y Hy).
  - intros [_ Hmin]. f_equal. apply bool_decide_eq_true_2. do 2 f_equal.
    unfold count_below. apply filter_length_0. intros y Hy. by rewrite (Hmin y Hy).
Qed.

Lemma best_mask_cheapest_witness :
  best_mask [ppm_082; FNaN; ppm_040; ppm_040] !! 2%nat = Some true ∧
  best_mask [ppm_082; FNaN; ppm_040; ppm_040] !! 3%nat = Some true.
Proof.
  split.
  - apply (best_mask_cheapest [ppm_082; FNaN; ppm_040; ppm_040] 2 ppm_040 eq_refl).
    split; [done|]. intros y Hy.
    repeat (apply elem_of_cons in Hy as [->|Hy]; [by vm_compute|]).
    by apply elem_of_nil in Hy.
  - reflexivity.
Defined.

(** X17. The second-best marker goes to a cell exactly when it has a
    price per mg and exactly one cell of the row is strictly cheaper.
    So when two vendors share the lowest price per mg, no cell of the
    row is marked second-best. *)
Theorem second_mask_runner_up (cells : list pyfloat) (i : nat) (x : pyfloat) :
  cells !! i = Some x →
  (second_mask cells !! i = Some true ↔
     notna x = true ∧ count_below x cells = 1%nat) ∧
  (∀ j k m, j ≠ k → cells !! j = Some m → cells !! k = Some m →
            notna m = true → (∀ y, y ∈ cells → flt y m = false) →
            second_mask cells !! i ≠ Some true).
Proof.
  intros Hi.
  assert (second_mask cells !! i = Some true ↔
          notna x = true ∧ count_below x cells = 1%nat) as Hsecond.
  { unfold second_mask. rewrite (mask_lookup 2 _ _ _ Hi).
    destruct (notna x); [|split; [by intros [= ?%bool_decide_eq_true]|by intros [? _]]].
    split.
    - intros [= Hr%bool_decide_eq_true]. split; [done|]. by injection Hr.
    - intros [_ ->]. by rewrite bool_decide_eq_true_2. }
  split; [done|].
  intros j k m Hjk Hj Hk Hm Hmin [Hx Hcount]%Hsecond.
  assert (flt m x = true) as Hmx.
  { destruct (flt_trichotomy m x Hm Hx) as [?|[->|Hxm]]; [done| |].
    - unfold count_below in Hcount.
      assert (length (filter (λ y, flt y x = true) cells) ≠ 0%nat) as Hne by lia.
      destruct Hne. apply filter_length_0. intros y Hy. by rewrite (Hmin y Hy).
    - by rewrite (Hmin x (list_elem_of_lookup_2 _ _ _ Hi)) in Hxm. }
  unfold count_below in Hcount.
  assert (2 ≤ length (filter (λ y, flt y x = true) cells))%nat; [|lia].
  destruct (Nat.lt_total j k) as [?|[?|?]]; [|done|].
  - by apply (filter_length_two _ cells j k m m).
  - by apply (filter_length_two _ cells k j m m).
Qed.

Lemma second_mask_runner_up_witness :
  second_mask [ppm_040; ppm_040; ppm_082] !! 2%nat ≠ Some true ∧
  second_mask [ppm_040; ppm_082] !! 1%nat = Some true.
Proof.
  split; [|reflexivity].
  apply (proj2 (second_mask_runner_up [ppm_040; ppm_040; ppm_082] 2 ppm_082 eq_refl)
           0%nat 1%nat ppm_040); [done..|].
  intros y Hy.
  repeat (apply elem_of_cons in Hy as [->|Hy]; [by vm_compute|]).
  by apply elem_of_nil in Hy.
Defined.

End Markers.

(** ** The filtered and grouped table *)

Section FilteredTable.

Import App.

(** *** The kit-size rule, again *)

Lemma normalize_total_row_idempotent (r : df_row) :
  normalize_total_row (normalize_total_row r) = normalize_total_row r.
Proof.
  unfold normalize_total_row at 2 3.
  destruct (notna (dose_mg_per_vial r)) eqn:Hd.
  - unfold normalize_total_row. cbn [dose_mg_per_vial]. rewrite Hd.
    by cbn [vendor product_name spec_raw price_usd dose_mg_per_vial vials_per_kit
            price_per_mg source_file].
  - unfold normalize_total_row. by rewrite Hd.
Qed.

(** X22. Applying the kit-size rule a second time changes nothing, and
    the rule neither adds nor drops a row. *)
Theorem normalize_total_idempotent (df : list df_row) :
  normalize_total (normalize_total df) = normalize_total df ∧
  length (normalize_total df) = length df.
Proof.
  unfold normalize_total. split; [|apply length_fmap].
  rewrite <-list_fmap_compose. apply list_fmap_ext.
  intros i r _. apply normalize_total_row_idempotent.
Qed.

(** *** The sidebar filters *)

Lemma peptide_test (peptides : list string) (cr : option string * df_row) :
  from_option (λ c, bool_decide (c ∈ peptides)) false cr.1 = true ↔
  ∃ c, cr.1 = Some c ∧ c ∈ peptides.
Proof.
  destruct cr.1 as [c|]; simpl.
  - rewrite bool_decide_eq_true. split; [by exists c|by intros (? & [= <-] & ?)].
  - split; [done|by intros (? & ? & _)].
Qed.

Lemma elem_of_apply_filters peptides vendors only_with_ppm df cr :
  cr ∈ apply_filters peptides vendors only_with_ppm df ↔
  cr ∈ df ∧ passes peptides vendors only_with_ppm cr.
Proof.
  unfold apply_filters, passes.
  destruct only_with_ppm, vendors as [|v vs], peptides as [|p ps];
    rewrite ?list_elem_of_filter, ?peptide_test; intuition (eauto; congruence).
Qed.

(** X18. What the sidebar filters keep.  A row is shown exactly when it
    passes each filter that is set: an empty peptide or vendor
    selection filters nothing, a peptide selection hides every row
    without a canonical name, and the price-per-mg box hides the rows
    without one.  With nothing set the table is unchanged, and
    filtering a filtered table again changes nothing. *)
Theorem apply_filters_keeps
    (peptides vendors : list string) (only_with_ppm : bool)
    (df : list (option string * df_row)) :
  (∀ cr, cr ∈ apply_filters peptides vendors only_with_ppm df ↔
         cr ∈ df ∧ passes peptides vendors only_with_ppm cr) ∧
  apply_filters [] [] false df = df ∧
  apply_filters peptides vendors only_with_ppm
    (apply_filters peptides vendors only_with_ppm df)
    = apply_filters peptides vendors only_with_ppm df.
Proof.
  split; [intros cr; apply elem_of_apply_filters|]. split; [done|].
  set (kept := apply_filters peptides vendors only_with_ppm df).
  assert (∀ cr, cr ∈ kept → passes peptides vendors only_with_ppm cr) as Hkept.
  { intros cr Hcr. by apply elem_of_apply_filters in Hcr as [_ ?]. }
  unfold apply_filters at 1.
  assert (match peptides with
          | [] => kept
          | _ :: _ =>
              filter (λ cr : option string * df_row,
                        from_option (λ c, bool_decide (c ∈ peptides)) false cr.1 = true)
                     kept
          end = kept) as ->.
  { destruct peptides as [|p ps] eqn:Hp; [done|]. rewrite <-Hp in *.
    apply filter_all, Forall_forall. intros cr Hcr. apply peptide_test.
    destruct (Hkept cr Hcr) as ([->|?] & _); [done|done]. }
  assert (match vendors with
          | [] => kept
          | _ :: _ => filter (λ cr : option string * df_row, vendor cr.2 ∈ vendors) kept
          end = kept) as ->.
  { destruct vendors as [|v vs] eqn:Hv; [done|]. rewrite <-Hv in *.
    apply filter_all, Forall_forall. intros cr Hcr.
    destruct (Hkept cr Hcr) as (_ & [->|?] & _); [done|done]. }
  destruct only_with_ppm; [|done].
  apply filter_all, Forall_forall. intros cr Hcr.
  destruct (Hkept cr Hcr) as (_ & _ & H). by apply H.
Qed.

(** *** The minima of a group *)

Lemma fmin_notna x y : notna x = true → notna y = true → notna (fmin x y) = true.
Proof. unfold fmin. by destruct (flt y x). Qed.

Lemma fle_refl x : notna x = true → fle x x = true.
Proof. intros H. unfold fle. by rewrite (feq_refl x H), orb_true_r. Qed.

Lemma fmin_le x y :
  notna x = true → notna y = true →
  fle (fmin x y) x = true ∧ fle (fmin x y) y = true.
Proof.
  intros Hx Hy. unfold fmin. destruct (flt y x) eqn:Hyx.
  - split; [unfold fle; by rewrite Hyx|by apply fle_refl].
  - split; [by apply fle_refl|by apply flt_false_fle].
Qed.

Lemma foldl_fmin_elem x l : foldl fmin x l ∈ x :: l.
Proof.
  revert x. induction l as [|y l IH]; intros x; simpl; [by left|].
  specialize (IH (fmin x y)). apply elem_of_cons in IH as [->|?].
  - unfold fmin. destruct (flt y x); [right; by left|by left].
  - right. by right.
Qed.

Lemma foldl_fmin_le x l :
  notna x = true → Forall (λ y, notna y = true) l →
  Forall (λ y, fle (foldl fmin x l) y = true) (x :: l).
Proof.
  intros Hx Hl. revert x Hx. induction Hl as [|y l Hy _ IH]; intros x Hx; simpl.
  - constructor; [by apply fle_refl|done].
  - destruct (fmin_le x y Hx Hy) as [Hmx Hmy].
    specialize (IH (fmin x y) (fmin_notna x y Hx Hy)).
    apply Forall_cons in IH as [Hm IH].
    constructor; [by eapply fle_trans|]. constructor; [by eapply fle_trans|done].
Qed.

Lemma min_skipna_least (values : list pyfloat) :
  least_present (min_skipna values) values.
Proof.
  unfold least_present, min_skipna.
  set (present := filter (λ x, notna x = true) values).
  assert (Forall (λ y, notna y = true) present) as Hpresent.
  { apply Forall_forall. by intros y [? _]%list_elem_of_filter. }
  destruct present as [|x l] eqn:Hp.
  - simpl. split; [|split; [done|]].
    + intros v Hv Hn. assert (v ∈ present) as Hin by by apply list_elem_of_filter.
      rewrite Hp in Hin. by apply elem_of_nil in Hin.
    + intros _ v Hv. destruct (notna v) eqn:Hn; [|done].
      assert (v ∈ present) as Hin by by apply list_elem_of_filter.
      rewrite Hp in Hin. by apply elem_of_nil in Hin.
  - apply Forall_cons in Hpresent as [Hx Hl]. simpl.
    pose proof (foldl_fmin_le x l Hx Hl) as Hle. rewrite Forall_forall in Hle.
    pose proof (foldl_fmin_elem x l) as Hin. rewrite <-Hp in Hin, Hle.
    apply list_elem_of_filter in Hin as [Hn Hin].
    split; [|split; [done|congruence]].
    intros v Hv Hnv. apply Hle. by apply list_elem_of_filter.
Qed.

Lemma elem_of_grouped_of filt g :
  g ∈ grouped_of filt ↔
  (∃ cr, cr ∈ filt ∧ group_key_of cr = Some (group_of g)) ∧
  grp_price_usd g = min_skipna (price_usd <$> group_rows filt (group_of g)) ∧
  grp_price_per_mg g = min_skipna (price_per_mg <$> group_rows filt (group_of g)).
Proof.
  unfold grouped_of. rewrite list_elem_of_fmap. split.
  - intros (key & -> & Hkey).
    rewrite isort_perm, elem_of_remove_dups, list_elem_of_omap in Hkey.
    destruct key as [[[c d] t] v]. done.
  - intros (Hcr & Hp & Hq). exists (group_of g). split.
    + destruct g as [c d t v p q]. simpl in *. by rewrite Hp, Hq.
    + by rewrite isort_perm, elem_of_remove_dups, list_elem_of_omap.
Qed.

(** X19. The grouped table.  It has one row for each group (canonical
    name, dose, total and vendor, all present) that occurs in the
    filtered table, and none else.  The price of a group is the least
    of the prices of its rows, missing only when all of them are, and
    so is its price per mg; the two minima are taken separately. *)
Theorem grouped_of_minima (filt : list (option string * df_row)) :
  NoDup (group_of <$> grouped_of filt) ∧
  (∀ k, k ∈ group_of <$> grouped_of filt ↔
        ∃ cr, cr ∈ filt ∧ group_key_of cr = Some k) ∧
  (∀ g, g ∈ grouped_of filt →
        group_rows filt (group_of g) ≠ [] ∧
        least_present (grp_price_usd g) (price_usd <$> group_rows filt (group_of g)) ∧
        least_present (grp_price_per_mg g)
                      (price_per_mg <$> group_rows filt (group_of g))).
Proof.
  split; [|split].
  - assert (group_of <$> grouped_of filt =
            isort group_key_leb (remove_dups (omap group_key_of filt))) as ->.
    { unfold grouped_of. rewrite <-list_fmap_compose.
      rewrite <-(list_fmap_id (isort _ _)) at 2.
      apply list_fmap_ext. by intros i [[[c d] t] v] _. }
    rewrite isort_perm. apply NoDup_remove_dups.
  - intros k. rewrite list_elem_of_fmap. split.
    + intros (g & -> & Hg). by apply elem_of_grouped_of in Hg as [? _].
    + intros Hcr.
      exists {| grp_peptide := k.1.1.1; grp_dose := k.1.1.2; grp_total := k.1.2;
                grp_vendor := k.2;
                grp_price_usd := min_skipna (price_usd <$> group_rows filt k);
                grp_price_per_mg := min_skipna (price_per_mg <$> group_rows filt k) |}.
      destruct k as [[[c d] t] v]. split; [done|].
      apply elem_of_grouped_of. done.
  - intros g (Hcr & -> & ->)%elem_of_grouped_of. split; [|split; apply min_skipna_least].
    destruct Hcr as (cr & Hcr & Hk). unfold group_rows.
    assert (cr ∈ filter (λ cr, group_key_of cr = Some (group_of g)) filt) as Hin
      by by apply list_elem_of_filter.
    destruct (filter _ filt); [by apply elem_of_nil in Hin|done].
Qed.

(** X24. Where the rows of the comparison table come from.  Every row
    of the grouped table of a run stands for at least one record of the
    master file that has a product name and a dose: its peptide is the
    canonical name of that record, its vendor and dose are the
    record's, and its total is ten times the dose.  So a record with an
    empty product name or without a dose never reaches the table. *)
Theorem grouped_rows_come_from_records
    (rs : list PrepareData.record) (peptides vendors : list string)
    (only_with_ppm : bool) :
  Forall (λ g, ∃ r d,
            r ∈ rs ∧ PrepareData.product_name r ≠ "" ∧
            grp_peptide g = canonical_peptide (PrepareData.product_name r) ∧
            grp_vendor g = PrepareData.vendor r ∧
            PrepareData.dose_mg_per_vial r = Some d ∧ notna d = true ∧
            grp_dose g = d ∧ grp_total g = fmul d (of_Z 10))
         (grouped_of (apply_filters peptides vendors only_with_ppm
                                    (canonical_rows (load_data rs)))).
Proof.
  apply Forall_forall. intros g [(cr & Hcr & Hk) _]%elem_of_grouped_of.
  apply apply_filters_sublist in Hcr. unfold canonical_rows, load_data in Hcr.
  apply list_elem_of_fmap in Hcr as (r0 & -> & (r & -> & Hr)%list_elem_of_fmap).
  unfold group_key_of, group_of in Hk. cbn [fst snd] in Hk.
  change (product_name (load_row r)) with (csv_text (PrepareData.product_name r)) in Hk.
  unfold csv_text in Hk.
  destruct (nonempty (PrepareData.product_name r)) eqn:Hname; [|done].
  cbn [fmap option_fmap option_map] in Hk.
  destruct (normalize_total_row_frame (load_row r)) as (Hv & _ & _ & _ & Hd & _).
  assert (notna (dose_mg_per_vial (load_row r)) = true →
          total_mg_per_kit (normalize_total_row (load_row r)) =
            fmul (dose_mg_per_vial (load_row r)) (of_Z 10)) as Ht.
  { intros Hn. unfold normalize_total_row. by rewrite Hn. }
  set (nr := normalize_total_row (load_row r)) in *.
  rewrite Hv, Hd in Hk.
  destruct (notna (dose_mg_per_vial (load_row r))) eqn:Hnd; [|done].
  rewrite (Ht eq_refl) in Hk.
  change (dose_mg_per_vial (load_row r))
    with (csv_float (PrepareData.dose_mg_per_vial r)) in Hk, Hnd.
  change (vendor (load_row r)) with (PrepareData.vendor r) in Hk.
  destruct (PrepareData.dose_mg_per_vial r) as [d|] eqn:Hdose; [|done].
  cbn [csv_float] in Hk, Hnd.
  destruct (notna (fmul d (of_Z 10))); [|done].
  cbn [andb] in Hk. injection Hk as Hp Hg Htot Hven.
  exists r, d. repeat split; try done.
  by apply nonempty_length.
Qed.

End FilteredTable.

(** ** More on the price list *)

Section PriceListMore.

Import App.

(** *** A selected key without a row *)

Lemma pivot_entry_blank k : pivot_entry (blank_row k) = None.
Proof. done. Qed.

Lemma merge_left_app sel1 sel2 grouped :
  merge_left (sel1 ++ sel2) grouped =
    (merge_left sel1 grouped ++ merge_left sel2 grouped)%list.
Proof. unfold merge_left. apply bind_app. Qed.

Lemma merge_left_unmatched k grouped :
  (∀ g, g ∈ grouped → grp_key g ≠ k) → merge_left [k] grouped = [blank_row k].
Proof.
  intros Hk. unfold merge_left. simpl. rewrite app_nil_r.
  assert (filter (λ g, grp_key g = k) grouped = []) as ->; [|done].
  induction grouped as [|g l IH]; [done|].
  rewrite filter_cons_False by (apply Hk; by left).
  apply IH. intros g' Hg'. apply Hk. by right.
Qed.

Lemma merge_left_middle (s1 s2 : list sel_row) (k : sel_row) grouped :
  (∀ g, g ∈ grouped → grp_key g ≠ k) →
  merge_left (s1 ++ k :: s2) grouped =
    (merge_left s1 grouped ++ blank_row k :: merge_left s2 grouped)%list.
Proof.
  intros Hk. change (k :: s2) with ([k] ++ s2)%list.
  by rewrite !merge_left_app, (merge_left_unmatched _ _ Hk).
Qed.

Lemma pivot_table_blank (m1 m2 : list merged_row) k :
  pivot_table (m1 ++ blank_row k :: m2)%list = pivot_table (m1 ++ m2)%list.
Proof.
  assert (omap pivot_entry (m1 ++ blank_row k :: m2)%list
          = omap pivot_entry (m1 ++ m2)%list) as Hent.
  { by rewrite !omap_app. }
  assert (∀ idx v, pivot_cell (m1 ++ blank_row k :: m2)%list idx v
                   = pivot_cell (m1 ++ m2)%list idx v)
    as Hcell.
  { intros idx v. unfold pivot_cell. rewrite !filter_app.
    by rewrite filter_cons_False by done. }
  unfold pivot_table, pivot_columns, pivot_index. rewrite Hent.
  apply list_fmap_ext. intros _ v _. f_equal.
  apply list_fmap_ext. intros _ idx _. apply Hcell.
Qed.

(** X20. A selected key that has no row in the grouped table (a row
    hidden by the filters of this run) adds nothing to the price list:
    alone it gives the "no prices" message, and beside other keys the
    list is the one of the other keys. *)
Theorem price_list_ignores_hidden
    (ks1 ks2 : list (string * option pyfloat * option pyfloat))
    (k : string * option pyfloat * option pyfloat) (grouped : list grouped_row) :
  (∀ g, g ∈ grouped → grp_key g ≠ (k.1.1, csv_float k.1.2, csv_float k.2)) →
  price_list_of [k] grouped = NoPrices ∧
  ((ks1 ++ ks2)%list ≠ [] →
   price_list_of (ks1 ++ k :: ks2)%list grouped
     = price_list_of (ks1 ++ ks2)%list grouped).
Proof.
  intros Hk. split.
  - unfold price_list_of.
    assert (merge_left (sel_df [k]) grouped =
            [blank_row (k.1.1, csv_float k.1.2, csv_float k.2)]) as ->
      by apply (merge_left_unmatched _ _ Hk).
    done.
  - intros Hne.
    assert (pivot_table (merge_left (sel_df (ks1 ++ k :: ks2)%list) grouped) =
            pivot_table (merge_left (sel_df (ks1 ++ ks2)%list) grouped)) as Hpivot.
    { assert (merge_left (sel_df (ks1 ++ k :: ks2)%list) grouped =
              (merge_left (sel_df ks1) grouped
               ++ blank_row (k.1.1, csv_float k.1.2, csv_float k.2)
               :: merge_left (sel_df ks2) grouped)%list) as ->.
      { unfold sel_df. rewrite fmap_app, fmap_cons.
        apply (merge_left_middle _ _ _ _ Hk). }
      unfold sel_df at 3. rewrite fmap_app, merge_left_app.
      apply pivot_table_blank. }
    unfold price_list_of. rewrite Hpivot.
    destruct (ks1 ++ ks2)%list as [|k' ks] eqn:Hks; [done|].
    destruct (ks1 ++ k :: ks2)%list eqn:Hks'; [|done].
    by destruct ks1.
Qed.

Lemma price_list_ignores_hidden_witness :
  price_list_of [("HIDDEN", Some (of_Z 1), Some (of_Z 10))] two_rows_grouped = NoPrices ∧
  price_list_of (("HIDDEN", Some (of_Z 1), Some (of_Z 10)) :: two_rows_selected)
                two_rows_grouped
    = price_list_of two_rows_selected two_rows_grouped.
Proof.
  assert (∀ g, g ∈ two_rows_grouped →
               grp_key g ≠ ("HIDDEN", csv_float (Some (of_Z 1)), csv_float (Some (of_Z 10))))
    as Hk.
  { assert (forallb (λ g, negb (String.eqb (grp_peptide g) "HIDDEN")) two_rows_grouped
            = true) as Hall by (vm_compute; reflexivity).
    rewrite forallb_forall in Hall.
    intros g Hg%list_elem_of_In%Hall [= Heq _ _]. by rewrite Heq in Hg. }
  split.
  - exact (proj1 (price_list_ignores_hidden [] two_rows_selected
                    ("HIDDEN", Some (of_Z 1), Some (of_Z 10)) two_rows_grouped Hk)).
  - exact (proj2 (price_list_ignores_hidden [] two_rows_selected
                    ("HIDDEN", Some (of_Z 1), Some (of_Z 10)) two_rows_grouped Hk)
                 ltac:(done)).
Defined.

(** *** The order of strings *)

Lemma ascii_compare_lt_trans a b c :
  Ascii.compare a b = Lt → Ascii.compare b c = Lt → Ascii.compare a c = Lt.
Proof.
  unfold Ascii.compare. rewrite !N.compare_lt_iff. lia.
Qed.

Lemma string_compare_lt_trans a b c :
  String.compare a b = Lt → String.compare b c = Lt → String.compare a c = Lt.
Proof.
  revert b c. induction a as [|x a IH]; intros [|y b] [|z c]; simpl; try done.
  destruct (Ascii.compare x y) eqn:Hxy; try done.
  - apply Ascii.compare_eq_iff in Hxy as ->.
    destruct (Ascii.compare y z); try done. apply IH.
  - intros _. destruct (Ascii.compare y z) eqn:Hyz; try done.
    + apply Ascii.compare_eq_iff in Hyz as <-. by rewrite Hxy.
    + by rewrite (ascii_compare_lt_trans _ _ _ Hxy Hyz).
Qed.

Lemma string_compare_refl a : String.compare a a = Eq.
Proof.
  induction a as [|x a IH]; [done|]. simpl.
  assert (Ascii.compare x x = Eq) as ->; [|done].
  unfold Ascii.compare. apply N.compare_refl.
Qed.

Lemma string_ltb_trans a b c :
  String.ltb a b = true → String.ltb b c = true → String.ltb a c = true.
Proof.
  unfold String.ltb.
  destruct (String.compare a b) eqn:Hab; try done.
  destruct (String.compare b c) eqn:Hbc; try done.
  by rewrite (string_compare_lt_trans _ _ _ Hab Hbc).
Qed.

Lemma string_ltb_irrefl a : String.ltb a a = false.
Proof. unfold String.ltb. by rewrite string_compare_refl. Qed.

Lemma string_ltb_total a b : a ≠ b → String.ltb a b = true ∨ String.ltb b a = true.
Proof.
  intros Hne. unfold String.ltb. rewrite (String.compare_antisym b a).
  destruct (String.compare a b) eqn:Hc; simpl; auto.
  by apply String.compare_eq_iff in Hc.
Qed.

Lemma string_leb_trans a b c :
  String.leb a b = true → String.leb b c = true → String.leb a c = true.
Proof.
  unfold String.leb.
  destruct (String.compare a b) eqn:Hab; try done.
  - apply String.compare_eq_iff in Hab as ->. done.
  - destruct (String.compare b c) eqn:Hbc; try done.
    + apply String.compare_eq_iff in Hbc as <-. by rewrite Hab.
    + by rewrite (string_compare_lt_trans _ _ _ Hab Hbc).
Qed.

(** *** The order of the index *)

Lemma index_leb_total (a b : pivot_index_key) :
  notna a.2 = true → notna b.2 = true →
  index_leb a b = true ∨ index_leb b a = true.
Proof.
  intros Ha Hb. unfold index_leb. rewrite (String.eqb_sym b.1 a.1).
  destruct (String.eqb_spec a.1 b.1) as [_|Hne]; [by apply fle_total|].
  by apply string_ltb_total.
Qed.

Lemma index_leb_trans (a b c : pivot_index_key) :
  index_leb a b = true → index_leb b c = true → index_leb a c = true.
Proof.
  unfold index_leb.
  destruct (String.eqb_spec a.1 b.1) as [Hab|Hab],
           (String.eqb_spec b.1 c.1) as [Hbc|Hbc].
  - rewrite Hab, Hbc, String.eqb_refl. apply fle_trans.
  - rewrite Hab. destruct (String.eqb_spec b.1 c.1); [done|]. by intros _.
  - rewrite <-Hbc. destruct (String.eqb_spec a.1 b.1); [done|]. by intros ? _.
  - intros H1 H2. pose proof (string_ltb_trans _ _ _ H1 H2) as H.
    destruct (String.eqb_spec a.1 c.1) as [Heq|]; [|done].
    rewrite Heq in H1. pose proof (string_ltb_trans _ _ _ H1 H2) as H'.
    by rewrite string_ltb_irrefl in H'.
Qed.

Lemma index_leb_antisym (a b : pivot_index_key) :
  index_leb a b = true → index_leb b a = true → a = b.
Proof.
  unfold index_leb. rewrite (String.eqb_sym b.1 a.1).
  destruct a as [a1 a2], b as [b1 b2]. simpl.
  destruct (String.eqb_spec a1 b1) as [->|Hne].
  - intros [H1| ->]%fle_cases [H2|H2]%fle_cases; try done; [|by rewrite H2].
    pose proof (flt_trans _ _ _ H1 H2) as H. by rewrite flt_irrefl in H.
  - intros H1 H2. pose proof (string_ltb_trans _ _ _ H1 H2) as H.
    by rewrite string_ltb_irrefl in H.
Qed.

(** *** The price list and the order of the selection *)

Section SameSelection.

Context (sel sel' : list sel_row) (grouped : list grouped_row).
Hypothesis wf : grouped_wf grouped.
Hypothesis same : ∀ k, k ∈ sel ↔ k ∈ sel'.

Lemma feeds_same idx v g : feeds sel idx v g ↔ feeds sel' idx v g.
Proof. unfold feeds. by rewrite same. Qed.

Lemma pivot_cell_same idx v :
  pivot_cell (merge_left sel grouped) idx v = pivot_cell (merge_left sel' grouped) idx v.
Proof.
  destruct (notna (pivot_cell (merge_left sel grouped) idx v)) eqn:Hn.
  - apply (pivot_cell_notna sel grouped wf) in Hn as (g & Hg & Hf).
    rewrite (pivot_cell_feeds sel grouped wf idx v g Hg Hf).
    symmetry. apply (pivot_cell_feeds sel' grouped wf idx v g Hg). by apply feeds_same.
  - destruct (notna (pivot_cell (merge_left sel' grouped) idx v)) eqn:Hn'.
    + apply (pivot_cell_notna sel' grouped wf) in Hn' as (g & Hg & Hf).
      apply feeds_same in Hf.
      assert (notna (pivot_cell (merge_left sel grouped) idx v) = true) as Hyes
        by (apply (pivot_cell_notna sel grouped wf); eauto).
      congruence.
    + destruct (pivot_cell (merge_left sel grouped) idx v),
               (pivot_cell (merge_left sel' grouped) idx v); done.
Qed.

Lemma pivot_columns_same :
  pivot_columns (merge_left sel grouped) = pivot_columns (merge_left sel' grouped).
Proof.
  apply (StronglySorted_unique_strong (λ a b, String.leb a b = true)).
  - intros a b _ _. apply String.leb_antisym.
  - apply (isort_strongly String.leb (λ _, True));
      [intros; apply String.leb_total|intros; by eapply string_leb_trans|].
    by apply Forall_forall.
  - apply (isort_strongly String.leb (λ _, True));
      [intros; apply String.leb_total|intros; by eapply string_leb_trans|].
    by apply Forall_forall.
  - apply NoDup_Permutation; [apply NoDup_pivot_columns..|].
    intros v. rewrite !elem_of_pivot_columns.
    split; intros (idx & g & Hg & Hf); exists idx, g; split; try done; by apply feeds_same.
Qed.

Lemma pivot_index_notna s idx :
  idx ∈ remove_dups (omap pivot_entry (merge_left s grouped)).*1 → notna idx.2 = true.
Proof.
  rewrite elem_of_remove_dups, list_elem_of_fmap.
  intros ([idx' v] & -> & (m & Hm & He)%list_elem_of_omap). simpl.
  unfold pivot_entry in He. destruct (m_vendor m); [|done].
  destruct (notna (m_dose m)) eqn:Hd; [|done].
  destruct (notna (m_price_usd m)); [|done]. by injection He as <- _.
Qed.

Lemma pivot_index_sorted s :
  StronglySorted (λ a b, index_leb a b = true) (pivot_index (merge_left s grouped)).
Proof.
  apply (isort_strongly index_leb (λ idx, notna idx.2 = true)).
  - intros. by apply index_leb_total.
  - intros. by eapply index_leb_trans.
  - apply Forall_forall. apply pivot_index_notna.
Qed.

Lemma pivot_index_same :
  pivot_index (merge_left sel grouped) = pivot_index (merge_left sel' grouped).
Proof.
  apply (StronglySorted_unique_strong (λ a b, index_leb a b = true)).
  - intros a b _ _. apply index_leb_antisym.
  - apply pivot_index_sorted.
  - apply pivot_index_sorted.
  - apply NoDup_Permutation; [apply NoDup_pivot_index..|].
    intros idx. rewrite !elem_of_pivot_index.
    split; intros (v & g & Hg & Hf); exists v, g; split; try done; by apply feeds_same.
Qed.

Lemma pivot_table_same :
  pivot_table (merge_left sel grouped) = pivot_table (merge_left sel' grouped).
Proof.
  unfold pivot_table. rewrite pivot_columns_same, pivot_index_same.
  apply list_fmap_ext. intros _ v _. f_equal.
  apply list_fmap_ext. intros _ idx _. apply pivot_cell_same.
Qed.

End SameSelection.

(** X21. The price list does not depend on the order in which the
    stored selection is listed, nor on repeats: two lists that hold the
    same decoded keys give the same price list.  (The stored list is
    built from a set, whose order is not fixed.) *)
Theorem price_list_of_selection_order
    (selected_keys selected_keys' : list (string * option pyfloat * option pyfloat))
    (grouped : list grouped_row) :
  grouped_wf grouped →
  (∀ k, k ∈ selected_keys ↔ k ∈ selected_keys') →
  price_list_of selected_keys grouped = price_list_of selected_keys' grouped.
Proof.
  intros wf Hsame. unfold price_list_of.
  rewrite (pivot_table_same (sel_df selected_keys) (sel_df selected_keys') grouped wf).
  - destruct selected_keys as [|k ks], selected_keys' as [|k' ks']; try done.
    + exfalso. apply (elem_of_nil k'), Hsame. by left.
    + exfalso. apply (elem_of_nil k), Hsame. by left.
  - intros k. unfold sel_df. rewrite !list_elem_of_fmap.
    split; intros (x & -> & Hx); exists x; split; try done; by apply Hsame.
Qed.

Lemma price_list_of_selection_order_witness :
  price_list_of (reverse two_rows_selected) two_rows_grouped =
    price_list_of two_rows_selected two_rows_grouped.
Proof.
  apply price_list_of_selection_order.
  - apply (grouped_of_run_wf two_rows [] [] false).
  - intros k. apply elem_of_reverse.
Defined.

End PriceListMore.

(** ** Reading a well-formed line *)

Section WellFormed.

Import PrepareData.

(** X25. A price written as a decimal is read as that number, whatever
    dollar signs, thousands separators and surrounding white space come
    with it: when the text left after the clean-up is a plain decimal,
    [to_float_price] returns its value. *)
Theorem to_float_price_reads_decimal (s ip fp : string) :
  plain_decimal ip fp (price_text s) →
  to_float_price (Some s) =
    Ok (Some (of_decimal (digits_val (ip ++ fp)) (- Z.of_nat (String.length fp)))).
Proof.
  intros Hg. rewrite to_float_price_Some, (float_of_plain_decimal _ _ _ Hg).
  destruct Hg as (_ & Hne & _ & [[-> _]|[_ ->]]); [by rewrite Hne|].
  by rewrite (nonempty_app_l _ _ Hne).
Qed.

Lemma to_float_price_reads_decimal_witness :
  ∃ v, to_float_price (Some " $1,040.50 ") = Ok (Some v) ∧ view v = VFin 2081 2.
Proof.
  eexists. split.
  - apply (to_float_price_reads_decimal " $1,040.50 " "1040" "50").
    repeat split; try reflexivity. right. split; reflexivity.
  - reflexivity.
Defined.

(** *** The kit size in a specification *)













End WellFormed.
